(** * portgraph: dependency graphs of FreeBSD ports

    A shallow embedding of [portgraph/portgraph.py] and the properties of
    its traversal.

    Conventions of the model.
    - A Python [str] is a [string]; every character is read as a code
      point below 256.
    - [subprocess.Popen(argv, stdout=PIPE)] is a function [popen] from the
      argument vector to the lines that successive [readline()] calls
      return before end of file; every call is logged in [procs].
    - A graphviz [Digraph] is its [body]: the ordered statements that the
      calls of [attr], [node] and [edge] append.
    - [Portgraph] holds the fields that [__init__] sets and nothing
      changes afterwards; [state] holds what the methods mutate
      ([self.graph], [self.port], [self.all_ports]) and the traces of the
      process ([print] and [Popen]).
    - [Popen] itself does not raise: a build tool that fails prints
      nothing, which is what the code sees of it.
    - Python's recursion is unbounded: [_recurseports] takes a [fuel]
      argument and returns [None] only when it runs out. *)

From Stdlib Require Import List ZArith Lia Bool Arith.
From Stdlib Require Import Strings.String Strings.Ascii.
Import ListNotations.
Open Scope list_scope.
Open Scope string_scope.

(** ** Python string and path primitives *)

Module Py.

(** [s.rfind(c)] for a one-character pattern: the highest index holding
    [c], or -1. [i] is the index of the head of [s], [acc] the answer so
    far. *)
Fixpoint rfind_from (c : ascii) (s : string) (i acc : Z) : Z :=
  match s with
  | EmptyString => acc
  | String a r => rfind_from c r (i + 1) (if Ascii.eqb a c then i else acc)
  end.

Definition rfind (c : ascii) (s : string) : Z := rfind_from c s 0 (-1).

(** [s.find(c)]: the lowest index holding [c], or -1. *)
Fixpoint find_from (c : ascii) (s : string) (i : Z) : Z :=
  match s with
  | EmptyString => (-1)%Z
  | String a r => if Ascii.eqb a c then i else find_from c r (i + 1)
  end.

Definition find (c : ascii) (s : string) : Z := find_from c s 0.

Definition len (s : string) : Z := Z.of_nat (String.length s).

(** The index a slice bound denotes: negative bounds count from the end,
    and everything is clamped to [0 .. len s]. *)
Definition clamp (s : string) (i : Z) : nat :=
  let i' := if (i <? 0)%Z then (i + len s)%Z else i in
  Z.to_nat (Z.min (Z.max i' 0) (len s)).

(** [s[:j]] *)
Definition slice_to (s : string) (j : Z) : string :=
  String.substring 0 (clamp s j) s.

(** [s[i:]] *)
Definition slice_from (s : string) (i : Z) : string :=
  String.substring (clamp s i) (String.length s - clamp s i) s.

(** [s.split(sep)] for a one-character separator. *)
Fixpoint split (sep : ascii) (s : string) : list string :=
  match s with
  | EmptyString => [EmptyString]
  | String c r =>
      if Ascii.eqb c sep then EmptyString :: split sep r
      else match split sep r with
           | [] => [String c EmptyString]
           | h :: t => String c h :: t
           end
  end.

(** [l[-2:]] *)
Definition last_two {A : Type} (l : list A) : list A :=
  skipn (List.length l - 2) l.

(** [sep.join(l)] *)
Definition join (sep : ascii) (l : list string) : string :=
  String.concat (String sep EmptyString) l.

(** [c.isspace()] on the code points below 256. *)
Definition isspace (c : ascii) : bool :=
  let n := nat_of_ascii c in
  ((9 <=? n)%nat && (n <=? 13)%nat) || ((28 <=? n)%nat && (n <=? 32)%nat)
  || (n =? 133)%nat || (n =? 160)%nat.

(** [s.rstrip()] *)
Fixpoint rstrip (s : string) : string :=
  match s with
  | EmptyString => EmptyString
  | String c r =>
      match rstrip r with
      | EmptyString => if isspace c then EmptyString else String c EmptyString
      | r' => String c r'
      end
  end.

Definition startswith (c : ascii) (s : string) : bool :=
  match s with
  | String a _ => Ascii.eqb a c
  | EmptyString => false
  end.

Fixpoint endswith (c : ascii) (s : string) : bool :=
  match s with
  | EmptyString => false
  | String a EmptyString => Ascii.eqb a c
  | String _ r => endswith c r
  end.

Definition sep : ascii := "/"%char.

(** [os.path.join(a, b)] of [posixpath]. *)
Definition path_join (a b : string) : string :=
  if startswith sep b then b
  else if String.eqb a "" || endswith sep a then a ++ b
  else a ++ String sep EmptyString ++ b.

(** Truth value of an optional string: [None] and [""] are false. *)
Definition truthy (o : option string) : bool :=
  match o with
  | Some s => negb (String.eqb s "")
  | None => false
  end.

Definition str_of (o : option string) : string :=
  match o with Some s => s | None => "" end.

(** [x in l] on a list of strings. *)
Definition mem (x : string) (l : list string) : bool :=
  existsb (String.eqb x) l.

(** [s.rstrip(c)] for a one-character set. *)
Fixpoint rstrip_char (c : ascii) (s : string) : string :=
  match s with
  | EmptyString => EmptyString
  | String a r =>
      match rstrip_char c r with
      | EmptyString => if Ascii.eqb a c then EmptyString
                       else String a EmptyString
      | r' => String a r'
      end
  end.

End Py.

(** ** The graph under construction *)

Inductive stmt : Type :=
| Attr (kw : string) (attrs : list (string * string))
| Node (name : string) (URL : option string) (color style : string)
| Edge (tail head color : string).

Record Digraph : Type := mkDigraph {
  name : string;
  filename : string;
  format : string;
  graph_attr : list (string * string);
  body : list stmt
}.

Definition Digraph_new (nm : string) : Digraph :=
  mkDigraph nm nm "svg" [] [].

Definition Digraph_emit (s : stmt) (g : Digraph) : Digraph :=
  mkDigraph (name g) (filename g) (format g) (graph_attr g)
            (body g ++ [s])%list.

Definition Digraph_set_attr (k v : string) (g : Digraph) : Digraph :=
  mkDigraph (name g) (filename g) (format g)
            (graph_attr g ++ [(k, v)])%list (body g).

(** ** class Portgraph *)

Record Portgraph : Type := mkPortgraph {
  localbase : string;
  flavor : option string;
  with_pkg : bool;
  verbose : bool;
  recursion : Z;
  url : bool;
  www : string;
  suffix : string;
  pkg : string;
  build : bool;
  run : bool;
  abandoned : bool
}.

Record state : Type := mkState {
  graph : Digraph;
  port : string;
  all_ports : list string;
  procs : list (list string);
  stdout : list string
}.

Definition set_graph (g : Digraph) (st : state) : state :=
  mkState g (port st) (all_ports st) (procs st) (stdout st).

Definition set_port (p : string) (st : state) : state :=
  mkState (graph st) p (all_ports st) (procs st) (stdout st).

(** [self.all_ports.append(x)] *)
Definition visit (x : string) (st : state) : state :=
  mkState (graph st) (port st) (all_ports st ++ [x])%list (procs st) (stdout st).

(** A [subprocess.Popen(argv, ...)] call. *)
Definition spawn (argv : list string) (st : state) : state :=
  mkState (graph st) (port st) (all_ports st) (procs st ++ [argv])%list
          (stdout st).

(** [print(x)] *)
Definition print (x : string) (st : state) : state :=
  mkState (graph st) (port st) (all_ports st) (procs st)
          (stdout st ++ [x])%list.

Definition emit (s : stmt) (st : state) : state :=
  set_graph (Digraph_emit s (graph st)) st.

(** [Portgraph.__init__]: the fields, and the initial mutable state with
    the default node attributes already sent to the graph. *)
Definition Portgraph_init
    (g : Digraph) (port0 localbase0 : string) (flavor0 : option string)
    (with_pkg0 verbose0 : bool) (recursion0 : Z) (www0 suffix0 : option string)
    (build0 run0 show_if_abandoned : bool) : Portgraph * state :=
  (mkPortgraph localbase0 flavor0 with_pkg0 verbose0 recursion0
     (match www0 with Some _ => true | None => false end)
     (Py.str_of www0) (Py.str_of suffix0)
     "ports-mgmt/pkg" build0 run0 show_if_abandoned,
   mkState
     (Digraph_emit
        (Attr "node" [("style", "filled"); ("fillcolor", "#E1E1E1");
                      ("fontcolor", "#737373")]) g)
     port0 [] [] []).

(** [_fullname2port]: the last two components of a path. *)
Definition _fullname2port (nm : string) : string :=
  Py.join Py.sep (Py.last_two (Py.split Py.sep nm)).

(** [_flavorname2port]: the name cut before its last [@]. *)
Definition _flavorname2port (flavorname : string) : string :=
  let sup_flavor := Py.rfind "@"%char flavorname in
  let sup_flavor :=
    if (sup_flavor =? -1)%Z then Py.len flavorname else sup_flavor in
  Py.slice_to flavorname sup_flavor.

Definition maintainer_argv (portname : string) : list string :=
  ["make"; "-C"; portname; "maintainer"].

Definition depends_argv (portname kind : string) (flavor0 : option string)
  : list string :=
  (["make"; "-C"; portname; (kind ++ "-depends-list")%string;
    "-DDEPENDS_SHOW_FLAVOR"]
   ++ (if Py.truthy flavor0
       then [("FLAVOR=" ++ Py.str_of flavor0)%string] else []))%list.

Section Traversal.

(** The external build tool: the lines of standard output for an argument
    vector. *)
Variable popen : list string -> list string.

Variable self : Portgraph.

(** [readline()] at end of output returns the empty string. *)
Definition readline (out : list string) : string :=
  match out with
  | l :: _ => l
  | [] => ""
  end.

(** The test shared by [_add_node] and the edge of [_recurseports]: the
    identifier is not the package manager's, or that one is shown. *)
Definition shown (ident : string) : bool :=
  negb (String.eqb ident (pkg self))
  || (String.eqb ident (pkg self) && with_pkg self).

Definition _add_node (ports : string) (st : state) : state :=
  let portname := _flavorname2port ports in
  let node_url :=
    if url self
    then Some (www self ++ _fullname2port portname ++ suffix self)
    else None in
  let '(node_color, node_style, st) :=
    if abandoned self then
      let argv := maintainer_argv portname in
      let st := spawn argv st in
      let maintainer := Py.rstrip (readline (popen argv)) in
      if String.eqb maintainer "ports@FreeBSD.org"
      then ("red", "bold", st)
      else ("black", "filled", st)
    else ("black", "filled", st) in
  if shown (_fullname2port ports)
  then emit (Node (_fullname2port ports) node_url node_color node_style) st
  else st.

(** The [while True] loop of [_recurseports] over the lines of the
    dependency list; [recurse] is the recursive call. *)
Fixpoint read_deps
    (recurse : string -> option string -> string * string -> Z
               -> state -> option state)
    (ports : string) (flavor0 : option string) (depends_args : string * string)
    (max_recurse : Z) (out : list string) (st : state) : option state :=
  match out with
  | [] => Some st
  | line :: rest =>
      if String.eqb line "" then Some st
      else
        let dep_port := Py.rstrip line in
        let st := visit ports st in
        let portname := _fullname2port ports in
        let depportname := _fullname2port dep_port in
        let st :=
          if shown depportname
          then emit (Edge portname depportname (snd depends_args)) st
          else st in
        if Py.mem dep_port (all_ports st)
        then read_deps recurse ports flavor0 depends_args max_recurse rest st
        else
          let st := _add_node dep_port st in
          let st := visit dep_port st in
          match recurse dep_port flavor0 depends_args (max_recurse - 1)%Z st with
          | Some st =>
              read_deps recurse ports flavor0 depends_args max_recurse rest st
          | None => None
          end
  end.

Fixpoint _recurseports
    (fuel : nat) (ports : string) (flavor0 : option string)
    (depends_args : string * string) (max_recurse : Z) (st : state)
  : option state :=
  match fuel with
  | O => None
  | S fuel' =>
      if (max_recurse =? 0)%Z then Some st
      else
        let st := if verbose self then print ports st else st in
        let portname := _flavorname2port ports in
        let st := _add_node ports st in
        let argv := depends_argv portname (fst depends_args) flavor0 in
        let st := spawn argv st in
        read_deps (_recurseports fuel') ports flavor0 depends_args
                  max_recurse (popen argv) st
  end.

Definition build_args : string * string := ("build", "#009999").
Definition run_args : string * string := ("run", "#990000").

Definition build_graph (fuel : nat) (st : state) : option state :=
  let st :=
    if Py.truthy (flavor self)
    then set_port (port st ++ "@" ++ Py.str_of (flavor self)) st
    else st in
  let r :=
    if build self
    then _recurseports fuel (Py.path_join (localbase self) (port st))
                       (flavor self) build_args (recursion self) st
    else Some st in
  match r with
  | None => None
  | Some st =>
      if run self
      then _recurseports fuel (Py.path_join (localbase self) (port st))
                         (flavor self) run_args (recursion self) st
      else Some st
  end.

End Traversal.

(** ** graph4port and graph4allports *)

(** How a call ends: it returns, an exception escapes it (the world is the
    one reached when it was raised), or the model ran out of fuel. *)
Inductive outcome : Type :=
| Returned (w : list (string * Digraph * bool))
| Raised (w : list (string * Digraph * bool))
| OutOfFuel.

Record DirEntry : Type := mkDirEntry {
  entry_name : string;
  entry_path : string;
  is_dir : bool
}.

Definition excluded : list string :=
  ["Mk"; "distfiles"; "Tools"; "Templates"; "Keywords"; "base"].

Section Batch.

Variable popen : list string -> list string.

(** [os.makedirs(path, exist_ok=True)] succeeds or raises. *)
Variable makedirs_ok : string -> bool.

(** [graph.render(path, cleanup=clean)] succeeds or raises. *)
Variable render_ok : string -> Digraph -> bool.

(** [os.scandir(path)]: names and kinds of the entries, or [None] when it
    raises. The tree of ports does not change during a run. *)
Variable scandir : string -> option (list (string * bool)).

Definition scan (path : string) : option (list DirEntry) :=
  match scandir path with
  | Some es =>
      Some (map (fun e => mkDirEntry (fst e) (Py.path_join path (fst e))
                                     (snd e)) es)
  | None => None
  end.

(** The world is the list of rendered artifacts: path, graph and cleanup
    flag. *)
Definition graph4port
    (fuel : nat) (port0 localbase0 : string) (flavor0 : option string)
    (with_pkg0 verbose0 : bool) (recursion0 : Z) (url0 suffix0 : option string)
    (build0 run0 abandoned0 clean : bool)
    (w : list (string * Digraph * bool)) : outcome :=
  let category := Py.slice_to port0 (Py.find "/"%char port0) in
  let nm := Py.slice_from port0 (Py.find "/"%char port0 + 1)%Z in
  let nm := if Py.truthy flavor0 then nm ++ "@" ++ Py.str_of flavor0 else nm in
  let g := Digraph_new nm in
  let g := Digraph_set_attr "rankdir" "LR" g in
  let '(portgraph, st) :=
    Portgraph_init g port0 localbase0 flavor0 with_pkg0 verbose0 recursion0
                   url0 suffix0 build0 run0 abandoned0 in
  match build_graph popen portgraph fuel st with
  | None => OutOfFuel
  | Some st =>
      if makedirs_ok category then
        if render_ok (Py.path_join category nm) (graph st)
        then Returned (w ++ [(Py.path_join category nm, graph st, clean)])%list
        else Raised w
      else Raised w
  end.

Section Loops.

Variables (fuel : nat) (localbase0 : string) (flavor0 : option string)
          (with_pkg0 verbose0 : bool) (recursion0 : Z)
          (url0 suffix0 : option string) (build0 run0 abandoned0 clean : bool).

(** The inner [for port in ...] loop. *)
Fixpoint for_ports (cat : DirEntry) (ports : list DirEntry)
    (w : list (string * Digraph * bool)) : outcome :=
  match ports with
  | [] => Returned w
  | p :: rest =>
      match graph4port fuel (Py.path_join (entry_name cat) (entry_name p))
                       localbase0 flavor0 with_pkg0 verbose0 recursion0
                       url0 suffix0 build0 run0 abandoned0 clean w with
      | Returned w' => for_ports cat rest w'
      | other => other
      end
  end.

(** The outer [for cat in ...] loop; the inner list is scanned when the
    loop reaches the category. *)
Fixpoint for_cats (cats : list DirEntry)
    (w : list (string * Digraph * bool)) : outcome :=
  match cats with
  | [] => Returned w
  | cat :: rest =>
      match scan (Py.path_join localbase0 (entry_path cat)) with
      | None => Raised w
      | Some es =>
          match for_ports cat (filter is_dir es) w with
          | Returned w' => for_cats rest w'
          | other => other
          end
      end
  end.

Definition graph4allports (w : list (string * Digraph * bool)) : outcome :=
  match scan localbase0 with
  | None => Raised w
  | Some es =>
      for_cats
        (filter (fun rec => is_dir rec
                            && negb (Py.mem (entry_name rec) excluded)) es) w
  end.

End Loops.

End Batch.

(** ** main *)

(** The namespace [parse_args] returns. *)
Record Args : Type := mkArgs {
  a_verbose : bool;
  a_localbase : string;
  a_port : string;
  a_flavor : option string;
  a_recursion : Z;
  a_url : option string;
  a_suffix : option string;
  a_with_pkg : bool;
  a_allports : bool;
  a_build : bool;
  a_run : bool;
  a_abandoned : bool;
  a_clean : bool
}.

(** The defaults the parser of [main] declares. *)
Definition parser_defaults : Args :=
  mkArgs false "/usr/ports" "ports-mgmt/portgraph" None (-1) None None
         false false false false false false.

(** [main], from the parsed arguments on. *)
Definition main
    (popen : list string -> list string) (makedirs_ok : string -> bool)
    (render_ok : string -> Digraph -> bool)
    (scandir : string -> option (list (string * bool)))
    (fuel : nat) (args : Args) (w : list (string * Digraph * bool))
  : outcome :=
  let build0 :=
    if negb (a_build args) && negb (a_run args) then true else a_build args in
  if a_allports args
  then graph4allports popen makedirs_ok render_ok scandir fuel
         (Py.rstrip_char Py.sep (a_localbase args)) (a_flavor args)
         (a_with_pkg args) (a_verbose args) (a_recursion args) (a_url args)
         (a_suffix args) build0 (a_run args) (a_abandoned args) (a_clean args)
         w
  else graph4port popen makedirs_ok render_ok fuel (a_port args)
         (Py.rstrip_char Py.sep (a_localbase args)) (a_flavor args)
         (a_with_pkg args) (a_verbose args) (a_recursion args) (a_url args)
         (a_suffix args) build0 (a_run args) (a_abandoned args) (a_clean args)
         w.

(** ** Definitions used by the statements *)

(** Number of occurrences of a character. *)
Fixpoint count_char (c : ascii) (s : string) : nat :=
  match s with
  | EmptyString => 0
  | String a r => (if Ascii.eqb a c then 1 else 0) + count_char c r
  end.

(** Position of the last occurrence of a character, if any. *)
Fixpoint last_index (c : ascii) (s : string) : option nat :=
  match s with
  | EmptyString => None
  | String a r =>
      match last_index c r with
      | Some k => Some (S k)
      | None => if Ascii.eqb a c then Some 0 else None
      end
  end.

(** A call of the build tool for a dependency list: one expansion of a
    port by [_recurseports]. *)
Definition is_depends_call (argv : list string) : bool :=
  String.eqb (nth 4 argv "") "-DDEPENDS_SHOW_FLAVOR".

Definition expansions (st : state) : nat :=
  List.length (filter is_depends_call (procs st)).

(** The names of [U] that are not in the visited list yet. *)
Definition remaining (U ap : list string) : nat :=
  List.length (filter (fun u => negb (Py.mem u ap)) (nodup string_dec U)).

(** The lines the [while] loop reads: those before the first empty one. *)
Fixpoint lines_read (out : list string) : list string :=
  match out with
  | [] => []
  | l :: rest => if String.eqb l "" then [] else l :: lines_read rest
  end.

(** The style [_add_node] computes for a port. *)
Definition node_style (popen : list string -> list string) (self : Portgraph)
    (ports : string) : string * string :=
  if abandoned self then
    if String.eqb
         (Py.rstrip (readline (popen (maintainer_argv (_flavorname2port ports)))))
         "ports@FreeBSD.org"
    then ("red", "bold")
    else ("black", "filled")
  else ("black", "filled").

(** The build tool answers from a table keyed by directory and target. *)
Definition table_popen (tbl : list (string * string * list string))
    (argv : list string) : list string :=
  match List.find (fun e => String.eqb (fst (fst e)) (nth 2 argv "")
                            && String.eqb (snd (fst e)) (nth 3 argv "")) tbl with
  | Some e => snd e
  | None => []
  end.

Definition nl : string := String (ascii_of_nat 10) EmptyString.

Open Scope list_scope.

(** The [URL] attribute [_add_node] gives a node. *)
Definition node_url (self : Portgraph) (ports : string) : option string :=
  if url self
  then Some (www self ++ _fullname2port (_flavorname2port ports)
                      ++ suffix self)%string
  else None.

(** The root of the traversal: [os.path.join(self.localbase, self.port)]
    after [build_graph] has appended the flavor. *)
Definition root_port (self : Portgraph) (st : state) : string :=
  Py.path_join (localbase self)
    (if Py.truthy (flavor self)
     then (port st ++ "@" ++ Py.str_of (flavor self))%string
     else port st).

(** The first statement of [build_graph]. *)
Definition append_flavor (self : Portgraph) (st : state) : state :=
  if Py.truthy (flavor self)
  then set_port (port st ++ "@" ++ Py.str_of (flavor self))%string st
  else st.

(** The body of the loop on a dependency already in the visited list: the
    port is appended to the list and the edge is recorded if shown. *)
Definition record_edge (self : Portgraph) (ports dep_port color : string)
    (st : state) : state :=
  if shown self (_fullname2port dep_port)
  then emit (Edge (_fullname2port ports) (_fullname2port dep_port) color)
            (visit ports st)
  else visit ports st.

(** The maintainer the build tool reports for a port. *)
Definition maintainer_of (popen : list string -> list string) (ports : string)
  : string :=
  Py.rstrip (readline (popen (maintainer_argv (_flavorname2port ports)))).

(** The names the traversal can meet: the root and what the build tool
    prints. *)
Definition port_name (popen : list string -> list string) (root x : string)
  : Prop :=
  x = root \/ exists argv line, In line (popen argv) /\ x = Py.rstrip line.

(** The graph body, the process trace and the visited list of [st'] extend
    those of [st], and [self.port] is the same. *)
Definition grows (st st' : state) : Prop :=
  (exists ext, body (graph st') = body (graph st) ++ ext) /\
  (exists ext, procs st' = procs st ++ ext) /\
  (exists ext, all_ports st' = all_ports st ++ ext) /\
  port st' = port st.

(** What one call of [_recurseports] on [ports] does to the visited list
    and to the number of expansions, for names taken from [U]. *)
Definition call_bound (U : list string) (ports : string) (st st' : state)
  : Prop :=
  incl (all_ports st) (all_ports st') /\
  (expansions st' <= expansions st + 1 \/
   expansions st' + remaining U (all_ports st')
   <= expansions st + 1 + remaining U (all_ports st ++ [ports])).

(** What [_recurseports] does on entry, before the loop: the optional
    [print], [_add_node] and the request for the dependency list. *)
Definition enter (popen : list string -> list string) (self : Portgraph)
    (ports : string) (fl : option string) (da : string * string) (st : state)
  : state :=
  spawn (depends_argv (_flavorname2port ports) (fst da) fl)
        (_add_node popen self ports
                   (if verbose self then print ports st else st)).

(** The state handed to the recursive call on a dependency that is not in
    the visited list. *)
Definition descend (popen : list string -> list string) (self : Portgraph)
    (ports dep_port : string) (da : string * string) (st : state) : state :=
  visit dep_port
        (_add_node popen self dep_port
                   (record_edge self ports dep_port (snd da) st)).

(** The graph has a node statement for a name. *)
Definition has_node (n : string) (st : state) : Prop :=
  exists u c sty, In (Node n u c sty) (body (graph st)).

(** Every visited name that is shown has a node, every edge has a node at
    its head, and at its tail unless the tail is hidden. *)
Definition endpoints_declared (self : Portgraph) (st : state) : Prop :=
  (forall x, In x (all_ports st) -> shown self (_fullname2port x) = true ->
             has_node (_fullname2port x) st)
  /\ (forall t h c, In (Edge t h c) (body (graph st)) ->
                    has_node h st /\ (has_node t st \/ shown self t = false)).

(** The suffix [graph4port] and [build_graph] append for a flavor. *)
Definition flavor_suffix (flavor0 : option string) : string :=
  if Py.truthy flavor0 then ("@" ++ Py.str_of flavor0)%string else "".

(** What [graph4port] sets on the graph it creates, whatever is drawn. *)
Definition graph_shell (nm : string) (g : Digraph) : Prop :=
  name g = nm /\ filename g = nm /\ format g = "svg" /\
  graph_attr g = [("rankdir", "LR")] /\
  exists rest,
    body g = Attr "node" [("style", "filled"); ("fillcolor", "#E1E1E1");
                          ("fontcolor", "#737373")] :: rest.

(** A node statement. *)
Definition is_node (s : stmt) : bool :=
  match s with
  | Node _ _ _ _ => true
  | _ => false
  end.

(** A call of the build tool for the maintainer of a port. *)
Definition is_maintainer_call (argv : list string) : bool :=
  String.eqb (nth 3 argv "") "maintainer".

(** The node statement of port [x] when the build tool reports [m] as its
    maintainer. *)
Definition styled_node (self : Portgraph) (x m : string) : stmt :=
  if abandoned self && String.eqb m "ports@FreeBSD.org"
  then Node (_fullname2port x) (node_url self x) "red" "bold"
  else Node (_fullname2port x) (node_url self x) "black" "filled".

(** [calls] lists, in order, the ports [_add_node] ran on between [st] and
    [st']: each shown one left its node statement, styled from the
    maintainer reported for it; each left its maintainer process when the
    check is enabled, and none did otherwise; every name that entered the
    visited list is among them. *)
Definition add_node_log (popen : list string -> list string)
    (self : Portgraph) (st : state) (calls : list string) (st' : state)
  : Prop :=
  filter is_node (body (graph st')) =
  filter is_node (body (graph st))
  ++ map (fun x => styled_node self x (maintainer_of popen x))
         (filter (fun x => shown self (_fullname2port x)) calls)
  /\ filter is_maintainer_call (procs st') =
     filter is_maintainer_call (procs st)
     ++ (if abandoned self
         then map (fun x => maintainer_argv (_flavorname2port x)) calls
         else [])
  /\ (forall x, In x (all_ports st') -> In x (all_ports st) \/ In x calls).

(** ** Example collections *)

(** A cycle: foo needs bar and bar needs foo. *)
Definition cyc_popen : list string -> list string :=
  table_popen
    [("/usr/ports/editors/foo", "build-depends-list",
      [("/usr/ports/devel/bar" ++ nl)%string]);
     ("/usr/ports/devel/bar", "build-depends-list",
      [("/usr/ports/editors/foo" ++ nl)%string])].

Definition cyc_names : list string :=
  ["/usr/ports/editors/foo"; "/usr/ports/devel/bar"].

Definition cyc_init : Portgraph * state :=
  Portgraph_init (Digraph_new "foo") "editors/foo" "/usr/ports" None
                 false false (-1) None None true false false.

(** A collection where a port has no maintainer. *)
Definition orphan_popen : list string -> list string :=
  table_popen
    [("/usr/ports/editors/foo", "build-depends-list",
      [("/usr/ports/devel/bar" ++ nl)%string]);
     ("/usr/ports/editors/foo", "maintainer", [("joe@example.org" ++ nl)%string]);
     ("/usr/ports/devel/bar", "maintainer", [("ports@FreeBSD.org" ++ nl)%string])].

Definition orphan_init : Portgraph * state :=
  Portgraph_init (Digraph_new "foo") "editors/foo" "/usr/ports" None
                 false false (-1) None None true false true.

Definition orphan_final : state :=
  Eval vm_compute in
    match build_graph orphan_popen (fst orphan_init) 3 (snd orphan_init) with
    | Some s => s
    | None => snd orphan_init
    end.

(** A flavored root with a flavored dependency. *)
Definition flavored_popen : list string -> list string :=
  table_popen
    [("/usr/ports/editors/vim", "build-depends-list",
      [("/usr/ports/lang/python@py39" ++ nl)%string])].

Definition flavored_init : Portgraph * state :=
  Portgraph_init (Digraph_new "vim@py") "editors/vim" "/usr/ports" (Some "py")
                 false false (-1) None None true false false.

Definition flavored_final : state :=
  Eval vm_compute in
    match build_graph flavored_popen (fst flavored_init) 3 (snd flavored_init)
    with
    | Some s => s
    | None => snd flavored_init
    end.

(** The package manager is a dependency and has one itself. *)
Definition pkg_popen : list string -> list string :=
  table_popen
    [("/usr/ports/editors/foo", "build-depends-list",
      [("/usr/ports/ports-mgmt/pkg" ++ nl)%string]);
     ("/usr/ports/ports-mgmt/pkg", "build-depends-list",
      [("/usr/ports/devel/bar" ++ nl)%string])].

Definition pkg_init : Portgraph * state :=
  Portgraph_init (Digraph_new "foo") "editors/foo" "/usr/ports" None
                 false false (-1) None None true false false.

(** The depth budget is zero. *)
Definition zero_init : Portgraph * state :=
  Portgraph_init (Digraph_new "foo") "editors/foo" "/usr/ports" None
                 false false 0 None None true false false.

(** Build and run dependencies agree: foo needs a, a needs b. *)
Definition both_popen : list string -> list string :=
  table_popen
    [("/usr/ports/editors/foo", "build-depends-list",
      [("/usr/ports/devel/a" ++ nl)%string]);
     ("/usr/ports/devel/a", "build-depends-list",
      [("/usr/ports/devel/b" ++ nl)%string]);
     ("/usr/ports/editors/foo", "run-depends-list",
      [("/usr/ports/devel/a" ++ nl)%string]);
     ("/usr/ports/devel/a", "run-depends-list",
      [("/usr/ports/devel/b" ++ nl)%string])].

Definition both_names : list string :=
  ["/usr/ports/devel/a"; "/usr/ports/devel/b"].

Definition both_init : Portgraph * state :=
  Portgraph_init (Digraph_new "foo") "editors/foo" "/usr/ports" None
                 false false (-1) None None true true false.

Definition both_final : state :=
  Eval vm_compute in
    match build_graph both_popen (fst both_init) 4 (snd both_init) with
    | Some s => s
    | None => snd both_init
    end.

(** The same collection with the run pass alone. *)
Definition runonly_init : Portgraph * state :=
  Portgraph_init (Digraph_new "foo") "editors/foo" "/usr/ports" None
                 false false (-1) None None false true false.

Definition runonly_final : state :=
  Eval vm_compute in
    match build_graph both_popen (fst runonly_init) 4 (snd runonly_init) with
    | Some s => s
    | None => snd runonly_init
    end.

(** The build tool lists a dependency twice. *)
Definition dup_popen : list string -> list string :=
  table_popen
    [("/usr/ports/editors/foo", "build-depends-list",
      [("/usr/ports/devel/bar" ++ nl)%string;
       ("/usr/ports/devel/bar" ++ nl)%string]);
     ("/usr/ports/devel/bar", "maintainer",
      [("ports@FreeBSD.org" ++ nl)%string])].

Definition dup_init : Portgraph * state :=
  Portgraph_init (Digraph_new "foo") "editors/foo" "/usr/ports" None
                 false false (-1) None None true false true.

Definition dup_loop (out : list string) (st : state) : option state :=
  read_deps dup_popen (fst dup_init) (_recurseports dup_popen (fst dup_init) 2)
            "/usr/ports/editors/foo" None build_args (-1) out st.

Definition dup_final : state :=
  Eval vm_compute in
    match dup_loop [("/usr/ports/devel/bar" ++ nl)%string;
                    ("/usr/ports/devel/bar" ++ nl)%string] (snd dup_init) with
    | Some s => s
    | None => snd dup_init
    end.

(** The package manager is listed twice and hidden. *)
Definition duppkg_popen : list string -> list string :=
  table_popen
    [("/usr/ports/editors/foo", "build-depends-list",
      [("/usr/ports/ports-mgmt/pkg" ++ nl)%string;
       ("/usr/ports/ports-mgmt/pkg" ++ nl)%string])].

(** A tree with one category and two ports; rendering the first fails. *)
Definition tree_scandir (path : string) : option (list (string * bool)) :=
  if String.eqb path "/usr/ports"
  then Some [("devel", true); ("Mk", true); ("README", false)]
  else if String.eqb path "/usr/ports/devel"
       then Some [("a", true); ("b", true)]
       else None.

Definition tree_render_ok (path : string) (g : Digraph) : bool :=
  negb (String.eqb path "devel/a").

(** No port has dependencies. *)
Definition no_deps (argv : list string) : list string := [].

Definition tree_graph4port (port0 : string)
    (w : list (string * Digraph * bool)) : outcome :=
  graph4port no_deps (fun _ => true) tree_render_ok 2 port0 "/usr/ports" None
             false false (-1) None None true false false true w.

Definition tree_graph4allports (w : list (string * Digraph * bool)) : outcome :=
  graph4allports no_deps (fun _ => true) tree_render_ok tree_scandir 2
                 "/usr/ports" None false false (-1) None None true false false
                 true w.

(** A verbose run over the cycle. *)
Definition chatty_init : Portgraph * state :=
  Portgraph_init (Digraph_new "foo") "editors/foo" "/usr/ports" None
                 false true (-1) None None true true false.

Definition chatty_final : state :=
  Eval vm_compute in
    match build_graph cyc_popen (fst chatty_init) 3 (snd chatty_init) with
    | Some s => s
    | None => snd chatty_init
    end.

(** An endless chain: every port depends on the one with one more [x]. *)
Definition chain_popen (argv : list string) : list string :=
  [(nth 2 argv "" ++ "x")%string].

Definition chain_init : Portgraph * state :=
  Portgraph_init (Digraph_new "foo") "editors/foo" "/usr/ports" None
                 false false 3 None None true false false.

Definition chain_depth_one : state :=
  Eval vm_compute in
    match _recurseports chain_popen (fst chain_init) 2
                        "/usr/ports/editors/foo" None build_args 1
                        (snd chain_init) with
    | Some s => s
    | None => snd chain_init
    end.

(** What rendering devel/b alone leaves. *)
Definition tree_b_artifacts : list (string * Digraph * bool) :=
  Eval vm_compute in
    match tree_graph4port "devel/b" [] with
    | Returned w => w
    | _ => []
    end.

(** What rendering a port given without its category leaves. *)
Definition tree_vim_artifacts : list (string * Digraph * bool) :=
  Eval vm_compute in
    match tree_graph4port "vim" [] with
    | Returned w => w
    | _ => []
    end.

(** A batch over the tree where every rendering succeeds. *)
Definition tree_batch_artifacts : list (string * Digraph * bool) :=
  Eval vm_compute in
    match graph4allports no_deps (fun _ => true) (fun _ _ => true)
                         tree_scandir 2 "/usr/ports" None false false (-1)
                         None None true false false true [] with
    | Returned w => w
    | _ => []
    end.

(** What [main] leaves with the defaults, on the tree without
    dependencies. *)
Definition default_artifacts : list (string * Digraph * bool) :=
  Eval vm_compute in
    match main no_deps (fun _ => true) (fun _ _ => true) tree_scandir 2
               parser_defaults [] with
    | Returned w => w
    | _ => []
    end.

(** * Properties *)

(** ** String facts *)

Lemma rfind_from_last_index (c : ascii) (s : string) :
  forall i acc,
    Py.rfind_from c s i acc =
    match last_index c s with
    | Some k => (i + Z.of_nat k)%Z
    | None => acc
    end.
Proof.
  induction s as [|a r IH]; intros i acc; simpl.
  - reflexivity.
  - rewrite IH. destruct (last_index c r) as [k|].
    + lia.
    + destruct (Ascii.eqb a c); [lia | reflexivity].
Qed.

Lemma last_index_lt (c : ascii) (s : string) (k : nat) :
  last_index c s = Some k -> (k < String.length s)%nat.
Proof.
  revert k. induction s as [|a r IH]; simpl; intros k H.
  - discriminate.
  - destruct (last_index c r) as [k'|].
    + injection H as <-. specialize (IH k' eq_refl). lia.
    + destruct (Ascii.eqb a c); [injection H as <-; lia | discriminate].
Qed.

Lemma substring_all (s : string) : String.substring 0 (String.length s) s = s.
Proof. induction s as [|a r IH]; simpl; [reflexivity | now rewrite IH]. Qed.

Lemma flavorname2port_last_index (s : string) :
  _flavorname2port s =
  match last_index "@"%char s with
  | Some k => String.substring 0 k s
  | None => s
  end.
Proof.
  unfold _flavorname2port, Py.rfind, Py.slice_to, Py.clamp, Py.len.
  rewrite rfind_from_last_index.
  destruct (last_index "@"%char s) as [k|] eqn:E.
  - apply last_index_lt in E.
    replace ((0 + Z.of_nat k =? -1)%Z) with false
      by (symmetry; apply Z.eqb_neq; lia).
    replace ((0 + Z.of_nat k <? 0)%Z) with false
      by (symmetry; apply Z.ltb_ge; lia).
    f_equal. lia.
  - simpl. replace ((Z.of_nat (String.length s) <? 0)%Z) with false
      by (symmetry; apply Z.ltb_ge; lia).
    replace (Z.to_nat _) with (String.length s) by lia.
    apply substring_all.
Qed.

Lemma count_char_cut (c : ascii) (s : string) (k : nat) :
  last_index c s = Some k ->
  (count_char c (String.substring 0 k s) + 1 <= count_char c s)%nat.
Proof.
  revert k. induction s as [|a r IH]; simpl; intros k H.
  - discriminate.
  - destruct (last_index c r) as [k'|].
    + injection H as <-. simpl. specialize (IH k' eq_refl). lia.
    + destruct (Ascii.eqb a c); [injection H as <-; simpl; lia | discriminate].
Qed.

Lemma last_index_none (c : ascii) (s : string) :
  count_char c s = 0%nat -> last_index c s = None.
Proof.
  induction s as [|a r IH]; simpl; intros H.
  - reflexivity.
  - destruct (Ascii.eqb a c); [discriminate|]. now rewrite IH.
Qed.

(** C6, as the code has it. Cutting a name before its last [@] is
    idempotent on the names with at most one [@]. *)
Theorem flavorname2port_idempotent_one_at (x : string) :
  (count_char "@"%char x <= 1)%nat ->
  _flavorname2port (_flavorname2port x) = _flavorname2port x.
Proof.
  intros H. rewrite (flavorname2port_last_index x).
  destruct (last_index "@"%char x) as [k|] eqn:E.
  - apply count_char_cut in E.
    rewrite flavorname2port_last_index, last_index_none; [reflexivity | lia].
  - rewrite flavorname2port_last_index, E. reflexivity.
Qed.

Lemma flavorname2port_idempotent_one_at_witness :
  (count_char "@"%char "editors/vim@py" <= 1)%nat /\
  _flavorname2port (_flavorname2port "editors/vim@py")
  = _flavorname2port "editors/vim@py".
Proof.
  split; [simpl; lia | apply flavorname2port_idempotent_one_at; simpl; lia].
Defined.

(** C6 as stated fails: with two [@] each application removes one. *)
Lemma flavorname2port_not_idempotent :
  ~ (forall x, _flavorname2port (_flavorname2port x) = _flavorname2port x).
Proof.
  intros H. specialize (H "/home/u@host/ports/editors/vim@py").
  vm_compute in H. discriminate.
Qed.

(** ** A flavor stays in the last component *)

Lemma string_app_assoc (a b c : string) :
  ((a ++ b) ++ c)%string = (a ++ (b ++ c))%string.
Proof. induction a as [|x a IH]; simpl; [reflexivity | now rewrite IH]. Qed.

Lemma split_nosep (c : ascii) (s : string) :
  count_char c s = 0 -> Py.split c s = [s].
Proof.
  induction s as [|a r IH]; simpl; intros H; [reflexivity|].
  destruct (Ascii.eqb a c); [discriminate|]. now rewrite IH.
Qed.

Lemma split_not_nil (c : ascii) (s : string) : Py.split c s <> [].
Proof.
  destruct s as [|a r]; simpl; [discriminate|].
  destruct (Ascii.eqb a c); [discriminate|].
  destruct (Py.split c r); discriminate.
Qed.

Lemma split_app_nosep (c : ascii) (x s : string) :
  count_char c s = 0 ->
  Py.split c (x ++ s)%string
  = removelast (Py.split c x) ++ [(last (Py.split c x) "" ++ s)%string].
Proof.
  intros Hs. induction x as [|a r IH]; simpl.
  - now apply split_nosep.
  - pose proof (split_not_nil c r) as Hne. rewrite IH.
    destruct (Py.split c r) as [|h t]; [congruence|].
    destruct (Ascii.eqb a c); [reflexivity|].
    destruct t as [|h' t]; reflexivity.
Qed.

Lemma fullname2port_suffix (x f : string) :
  count_char "/"%char f = 0 ->
  _fullname2port (x ++ f)%string = (_fullname2port x ++ f)%string.
Proof.
  intros Hf. unfold _fullname2port. rewrite (split_app_nosep Py.sep x f Hf).
  pose proof (split_not_nil Py.sep x) as Hne.
  destruct (exists_last Hne) as [l [z Hl]]. rewrite Hl.
  rewrite removelast_last, last_last.
  unfold Py.last_two. rewrite !length_app. simpl.
  replace (List.length l + 1 - 2) with (List.length l - 1) by lia.
  rewrite !skipn_app.
  replace (List.length l - 1 - List.length l) with 0 by lia. simpl.
  unfold Py.join.
  destruct (skipn (List.length l - 1) l) as [|h [|h' t]] eqn:E; simpl.
  - reflexivity.
  - now rewrite !string_app_assoc.
  - exfalso. apply (f_equal (@List.length string)) in E.
    rewrite length_skipn in E. simpl in E. lia.
Qed.

Lemma last_index_flavor (x f : string) :
  count_char "@"%char f = 0 ->
  last_index "@"%char (x ++ String "@"%char f)%string
  = Some (String.length x).
Proof.
  intros Hf. induction x as [|a r IH]; simpl.
  - now rewrite (last_index_none _ _ Hf).
  - now rewrite IH.
Qed.

Lemma substring_prefix (x y : string) :
  String.substring 0 (String.length x) (x ++ y)%string = x.
Proof.
  induction x as [|a r IH]; simpl.
  - destruct y; reflexivity.
  - now rewrite IH.
Qed.

Lemma flavorname2port_strips (x f : string) :
  count_char "@"%char f = 0 ->
  _flavorname2port (x ++ "@" ++ f)%string = x.
Proof.
  intros Hf. rewrite flavorname2port_last_index.
  change (x ++ "@" ++ f)%string with (x ++ String "@"%char f)%string.
  rewrite (last_index_flavor x f Hf). apply substring_prefix.
Qed.

Lemma fullname2port_keeps_flavor (x f : string) :
  count_char "/"%char f = 0 ->
  _fullname2port (x ++ "@" ++ f)%string
  = (_fullname2port x ++ "@" ++ f)%string.
Proof.
  intros Hf. apply fullname2port_suffix. simpl. exact Hf.
Qed.

(** ** The visited list and the state primitives *)

Lemma mem_In (x : string) (l : list string) : Py.mem x l = true <-> In x l.
Proof.
  unfold Py.mem. rewrite existsb_exists. split.
  - intros [y [Hy E]]. apply String.eqb_eq in E. now subst.
  - intros H. exists x. split; [assumption | apply String.eqb_refl].
Qed.

Lemma mem_false (x : string) (l : list string) :
  Py.mem x l = false <-> ~ In x l.
Proof.
  rewrite <- mem_In. destruct (Py.mem x l); split; intros; congruence.
Qed.

(** [_add_node] is an optional call of the build tool followed by an
    optional [node] statement. *)
Lemma add_node_eq popen self ports st :
  _add_node popen self ports st =
  let st1 := if abandoned self
             then spawn (maintainer_argv (_flavorname2port ports)) st
             else st in
  if shown self (_fullname2port ports)
  then emit (Node (_fullname2port ports) (node_url self ports)
                  (fst (node_style popen self ports))
                  (snd (node_style popen self ports))) st1
  else st1.
Proof.
  unfold _add_node, node_style, node_url.
  destruct (abandoned self); [|reflexivity].
  destruct (String.eqb _ "ports@FreeBSD.org"); reflexivity.
Qed.

Lemma add_node_all_ports popen self ports st :
  all_ports (_add_node popen self ports st) = all_ports st.
Proof.
  rewrite add_node_eq. cbv zeta.
  destruct (shown self _), (abandoned self); reflexivity.
Qed.

Lemma add_node_port popen self ports st :
  port (_add_node popen self ports st) = port st.
Proof.
  rewrite add_node_eq. cbv zeta.
  destruct (shown self _), (abandoned self); reflexivity.
Qed.

Lemma add_node_expansions popen self ports st :
  expansions (_add_node popen self ports st) = expansions st.
Proof.
  rewrite add_node_eq. cbv zeta. unfold expansions.
  destruct (shown self _), (abandoned self); simpl;
    rewrite ?filter_app; simpl; rewrite ?app_nil_r; reflexivity.
Qed.

Lemma depends_argv_is_call portname kind fl :
  is_depends_call (depends_argv portname kind fl) = true.
Proof. unfold depends_argv. destruct (Py.truthy fl); reflexivity. Qed.

Lemma spawn_depends_expansions portname kind fl st :
  expansions (spawn (depends_argv portname kind fl) st) = S (expansions st).
Proof.
  unfold expansions, spawn. cbn [procs].
  rewrite filter_app, length_app. cbn [filter].
  rewrite depends_argv_is_call. cbn [List.length]. lia.
Qed.

(** [self.port] is only assigned by [build_graph]. *)
Lemma recurseports_port popen self fuel :
  forall ports fl da mr st st',
    _recurseports popen self fuel ports fl da mr st = Some st' ->
    port st' = port st.
Proof.
  induction fuel as [|fuel IH]; intros ports fl da mr st st' H;
    [discriminate|].
  simpl in H. destruct (mr =? 0)%Z; [now injection H as <-|].
  set (st1 := spawn _ _) in H.
  assert (H1 : port st1 = port st).
  { subst st1. simpl. rewrite add_node_port.
    destruct (verbose self); reflexivity. }
  rewrite <- H1. clearbody st1. clear H1.
  revert st1 H.
  induction (popen (depends_argv (_flavorname2port ports) (fst da) fl))
    as [|line rest IHout]; intros st1 H; simpl in H.
  - now injection H as <-.
  - destruct (String.eqb line ""); [now injection H as <-|].
    set (st2 := if shown self _ then _ else visit ports st1) in H.
    assert (H2 : port st2 = port st1)
      by (subst st2; destruct (shown self _); reflexivity).
    destruct (Py.mem _ (all_ports st2)).
    + rewrite <- H2. apply IHout, H.
    + destruct (_recurseports _ _ _ _ _ _ _ _) as [st5|] eqn:E5;
        [|discriminate].
      apply IH in E5. simpl in E5. rewrite add_node_port in E5.
      rewrite <- H2, <- E5. apply IHout, H.
Qed.

(** ** An invariant principle for the traversal *)

Section Invariant.

Variable popen : list string -> list string.
Variable self : Portgraph.
Variable Names : string -> Prop.
Variable P : state -> Prop.

Hypothesis Names_deps :
  forall argv line, In line (popen argv) -> Names (Py.rstrip line).
Hypothesis P_print : forall x st, P st -> P (print x st).
Hypothesis P_visit : forall x st, P st -> P (visit x st).
Hypothesis P_spawn :
  forall x kind fl st,
    Names x -> P st -> P (spawn (depends_argv (_flavorname2port x) kind fl) st).
Hypothesis P_add_node :
  forall x st, Names x -> P st -> P (_add_node popen self x st).
Hypothesis P_edge :
  forall x y c st,
    Names x -> Names y -> shown self (_fullname2port y) = true ->
    P st -> P (emit (Edge (_fullname2port x) (_fullname2port y) c) st).

Lemma read_deps_invariant recurse ports fl da mr :
  (forall x fl' da' mr' st st',
      Names x -> P st -> recurse x fl' da' mr' st = Some st' -> P st') ->
  Names ports ->
  forall out st st',
    (forall line, In line out -> Names (Py.rstrip line)) ->
    P st ->
    read_deps popen self recurse ports fl da mr out st = Some st' ->
    P st'.
Proof.
  intros Hrec Hports out. induction out as [|line rest IH]; intros st st' Hout HP H.
  - simpl in H. injection H as <-. assumption.
  - simpl in H. destruct (String.eqb line "").
    + injection H as <-. assumption.
    + assert (Hline : Names (Py.rstrip line)) by (apply Hout; now left).
      assert (Hrest : forall l, In l rest -> Names (Py.rstrip l))
        by (intros l Hl; apply Hout; now right).
      set (st2 := if shown self (_fullname2port (Py.rstrip line))
                  then emit (Edge (_fullname2port ports)
                                  (_fullname2port (Py.rstrip line)) (snd da))
                            (visit ports st)
                  else visit ports st) in H.
      assert (HP2 : P st2).
      { subst st2. destruct (shown self _) eqn:E.
        - apply P_edge; auto.
        - apply P_visit; assumption. }
      destruct (Py.mem (Py.rstrip line) (all_ports st2)).
      * eapply IH; eassumption.
      * destruct (recurse _ _ _ _ _) as [st5|] eqn:E5; [|discriminate].
        eapply IH; [exact Hrest | | exact H].
        eapply Hrec; [exact Hline | | exact E5].
        apply P_visit, P_add_node; assumption.
Qed.

Lemma recurseports_invariant fuel :
  forall ports fl da mr st st',
    Names ports -> P st ->
    _recurseports popen self fuel ports fl da mr st = Some st' -> P st'.
Proof.
  induction fuel as [|fuel IH]; intros ports fl da mr st st' Hn HP H.
  - discriminate.
  - simpl in H. destruct (mr =? 0)%Z.
    + injection H as <-. assumption.
    + eapply read_deps_invariant; [exact IH | exact Hn | | | exact H].
      * intros line Hl. eapply Names_deps; eassumption.
      * apply P_spawn; [assumption|]. apply P_add_node; [assumption|].
        destruct (verbose self); [apply P_print|]; assumption.
Qed.

Hypothesis P_set_port : forall p st, P st -> P (set_port p st).

Lemma build_graph_invariant fuel st st' :
  Names (root_port self st) -> P st ->
  build_graph popen self fuel st = Some st' -> P st'.
Proof.
  intros Hn HP. unfold build_graph.
  set (st0 := if Py.truthy (flavor self) then _ else st).
  assert (Hp0 : Py.path_join (localbase self) (port st0) = root_port self st)
    by (unfold root_port; subst st0;
        destruct (Py.truthy (flavor self)); reflexivity).
  assert (HP0 : P st0)
    by (subst st0; destruct (Py.truthy (flavor self)); auto).
  clearbody st0. rewrite Hp0.
  destruct (build self).
  - destruct (_recurseports _ _ _ _ _ build_args _ st0) as [st1|] eqn:E1;
      [|discriminate].
    assert (HP1 : P st1)
      by (apply (recurseports_invariant fuel _ _ _ _ _ _ Hn HP0 E1)).
    assert (Hp1 : Py.path_join (localbase self) (port st1) = root_port self st).
    { rewrite <- Hp0. f_equal. eapply recurseports_port. exact E1. }
    rewrite Hp1. destruct (run self).
    + intros H. apply (recurseports_invariant fuel _ _ _ _ _ _ Hn HP1 H).
    + intros H. injection H as <-. assumption.
  - destruct (run self).
    + rewrite Hp0. intros H.
      apply (recurseports_invariant fuel _ _ _ _ _ _ Hn HP0 H).
    + intros H. injection H as <-. assumption.
Qed.

End Invariant.

(** ** The measure of the traversal *)

Lemma filter_pointwise_le {A : Type} (f g : A -> bool) (l : list A) :
  (forall x, g x = true -> f x = true) ->
  List.length (filter g l) <= List.length (filter f l).
Proof.
  intros Hgf. induction l as [|a l IH]; simpl; [lia|].
  destruct (g a) eqn:Eg.
  - rewrite (Hgf a Eg). simpl. lia.
  - destruct (f a); simpl; lia.
Qed.

Lemma filter_pointwise_lt {A : Type} (f g : A -> bool) (l : list A) (d : A) :
  (forall x, g x = true -> f x = true) ->
  In d l -> f d = true -> g d = false ->
  List.length (filter g l) < List.length (filter f l).
Proof.
  intros Hgf Hd Hfd Hgd. induction l as [|a l IH]; simpl; [contradiction|].
  destruct Hd as [->|Hd].
  - rewrite Hfd, Hgd. simpl.
    pose proof (filter_pointwise_le f g l Hgf). lia.
  - specialize (IH Hd). destruct (g a) eqn:Eg.
    + rewrite (Hgf a Eg). simpl. lia.
    + destruct (f a); simpl; lia.
Qed.

Lemma remaining_mono (U ap ap' : list string) :
  incl ap ap' -> remaining U ap' <= remaining U ap.
Proof.
  intros Hi. unfold remaining. apply filter_pointwise_le.
  intros x Hx. apply negb_true_iff in Hx. apply negb_true_iff.
  apply mem_false. apply mem_false in Hx. intros Hin. apply Hx, Hi, Hin.
Qed.

Lemma remaining_lt (U ap ap' : list string) (d : string) :
  incl ap ap' -> In d U -> ~ In d ap -> In d ap' ->
  remaining U ap' < remaining U ap.
Proof.
  intros Hi HdU Hd Hd'. unfold remaining.
  apply filter_pointwise_lt with (d := d).
  - intros x Hx. apply negb_true_iff in Hx. apply negb_true_iff.
    apply mem_false. apply mem_false in Hx. intros Hin. apply Hx, Hi, Hin.
  - apply nodup_In. assumption.
  - apply negb_true_iff, mem_false. assumption.
  - apply negb_false_iff, mem_In. assumption.
Qed.

Lemma remaining_le_nodup (U ap : list string) :
  remaining U ap <= List.length (nodup string_dec U).
Proof. unfold remaining. apply List.filter_length_le. Qed.

Lemma remaining_visited (U ap : list string) (d : string) :
  In d U -> In d ap -> remaining U ap < List.length (nodup string_dec U).
Proof.
  intros HdU Hd.
  assert (H : remaining U ap < remaining U []).
  { apply remaining_lt with (d := d); auto. intros x []. }
  pose proof (remaining_le_nodup U []). lia.
Qed.

(** ** Termination *)

Section Termination.

Variable popen : list string -> list string.
Variable self : Portgraph.
Variable U : list string.

Hypothesis popen_in_U :
  forall argv line, In line (popen argv) -> In (Py.rstrip line) U.

Lemma call_bound_weak ports st st' :
  call_bound U ports st st' ->
  expansions st' + remaining U (all_ports st')
  <= expansions st + 1 + remaining U (all_ports st).
Proof.
  intros [Hi [H|H]].
  - pose proof (remaining_mono U _ _ Hi). lia.
  - assert (remaining U (all_ports st ++ [ports]) <= remaining U (all_ports st))
      by (apply remaining_mono, incl_appl, incl_refl).
    lia.
Qed.

Lemma read_deps_total fuel ports fl da mr :
  (forall x mr' st,
      remaining U (all_ports st) < fuel ->
      exists st', _recurseports popen self fuel x fl da mr' st = Some st'
                  /\ call_bound U x st st') ->
  forall out st,
    (forall line, In line out -> In (Py.rstrip line) U) ->
    remaining U (all_ports st) <= fuel ->
    exists st',
      read_deps popen self (_recurseports popen self fuel) ports fl da mr out st
      = Some st'
      /\ incl (all_ports st) (all_ports st')
      /\ (st' = st \/
          expansions st' + remaining U (all_ports st')
          <= expansions st + remaining U (all_ports st ++ [ports])).
Proof.
  intros Hrec out. induction out as [|line rest IH]; intros st Hout Hfuel.
  - exists st. simpl. split; [reflexivity|]. split; [apply incl_refl | now left].
  - simpl. destruct (String.eqb line "").
    + exists st. split; [reflexivity|]. split; [apply incl_refl | now left].
    + assert (Hline : In (Py.rstrip line) U) by (apply Hout; now left).
      assert (Hrest : forall l, In l rest -> In (Py.rstrip l) U)
        by (intros l Hl; apply Hout; now right).
      set (st2 := if shown self (_fullname2port (Py.rstrip line))
                  then emit (Edge (_fullname2port ports)
                                  (_fullname2port (Py.rstrip line)) (snd da))
                            (visit ports st)
                  else visit ports st).
      assert (Hap2 : all_ports st2 = all_ports st ++ [ports])
        by (subst st2; destruct (shown self _); reflexivity).
      assert (Hex2 : expansions st2 = expansions st)
        by (subst st2; destruct (shown self _); reflexivity).
      assert (Hi2 : incl (all_ports st) (all_ports st2))
        by (rewrite Hap2; apply incl_appl, incl_refl).
      pose proof (remaining_mono U _ _ Hi2) as Hr2.
      assert (Hstep : remaining U (all_ports st2 ++ [ports])
                      <= remaining U (all_ports st2))
        by (apply remaining_mono, incl_appl, incl_refl).
      destruct (Py.mem (Py.rstrip line) (all_ports st2)) eqn:Em.
      * destruct (IH st2 Hrest ltac:(lia)) as [st' [E [Hi Hb]]].
        exists st'. split; [exact E|]. split.
        -- eapply incl_tran; eassumption.
        -- right. destruct Hb as [->|Hb]; [rewrite Hex2, Hap2; lia|].
           rewrite <- Hap2, <- Hex2. lia.
      * apply mem_false in Em.
        set (st4 := visit (Py.rstrip line)
                          (_add_node popen self (Py.rstrip line) st2)).
        assert (Hap4 : all_ports st4 = all_ports st2 ++ [Py.rstrip line])
          by (subst st4; simpl; now rewrite add_node_all_ports).
        assert (Hex4 : expansions st4 = expansions st2)
          by (subst st4; unfold expansions; simpl;
              apply (add_node_expansions popen self)).
        assert (Hlt : remaining U (all_ports st4) < remaining U (all_ports st2)).
        { apply remaining_lt with (d := Py.rstrip line); auto.
          - rewrite Hap4. apply incl_appl, incl_refl.
          - rewrite Hap4. apply in_or_app. right. now left. }
        destruct (Hrec (Py.rstrip line) (mr - 1)%Z st4 ltac:(lia))
          as [st5 [E5 Hb5]].
        fold st4. rewrite E5.
        pose proof (call_bound_weak _ _ _ Hb5) as Hw5.
        destruct Hb5 as [Hi5 _].
        pose proof (remaining_mono U _ _ Hi5) as Hr5.
        destruct (IH st5 Hrest ltac:(lia)) as [st' [E [Hi Hb]]].
        exists st'. split; [exact E|]. split.
        -- eapply incl_tran; [exact Hi2|]. eapply incl_tran; [|exact Hi].
           eapply incl_tran; [|exact Hi5]. rewrite Hap4.
           apply incl_appl, incl_refl.
        -- right.
           assert (Hstep5 : remaining U (all_ports st5 ++ [ports])
                            <= remaining U (all_ports st5))
             by (apply remaining_mono, incl_appl, incl_refl).
           rewrite <- Hap2, <- Hex2.
           destruct Hb as [->|Hb]; lia.
Qed.

Lemma recurseports_total fuel :
  forall ports fl da mr st,
    remaining U (all_ports st) < fuel ->
    exists st', _recurseports popen self fuel ports fl da mr st = Some st'
                /\ call_bound U ports st st'.
Proof.
  induction fuel as [|fuel IH]; intros ports fl da mr st Hfuel; [lia|].
  simpl. destruct (mr =? 0)%Z.
  - exists st. split; [reflexivity|]. split; [apply incl_refl | left; lia].
  - set (st1 := spawn _ _).
    assert (Hap1 : all_ports st1 = all_ports st).
    { subst st1. simpl. rewrite add_node_all_ports.
      destruct (verbose self); reflexivity. }
    assert (Hex1 : expansions st1 = S (expansions st)).
    { subst st1. rewrite spawn_depends_expansions, add_node_expansions.
      destruct (verbose self); reflexivity. }
    destruct (read_deps_total fuel ports fl da mr
                (fun x mr' s H => IH x fl da mr' s H)
                (popen (depends_argv (_flavorname2port ports) (fst da) fl)) st1)
      as [st' [E [Hi Hb]]].
    + intros line Hl. eapply popen_in_U; eassumption.
    + rewrite Hap1. lia.
    + exists st'. split; [exact E|]. split.
      * rewrite <- Hap1. exact Hi.
      * destruct Hb as [->|Hb]; [left; lia|].
        right. rewrite <- Hap1. lia.
Qed.

End Termination.

Lemma table_popen_closed tbl (U : list string) :
  forallb (fun e => forallb (fun l => Py.mem (Py.rstrip l) U) (snd e)) tbl
  = true ->
  forall argv line, In line (table_popen tbl argv) -> In (Py.rstrip line) U.
Proof.
  intros H argv line Hl. unfold table_popen in Hl.
  destruct (List.find _ tbl) as [e|] eqn:E; [|contradiction].
  apply find_some in E. destruct E as [He _].
  rewrite forallb_forall in H. specialize (H e He).
  rewrite forallb_forall in H. apply mem_In, H, Hl.
Qed.

(** C1. Termination. Where every line the build tool can print names a
    port of the finite list [U], the traversal of [ports] returns for every
    depth budget [mr] (so also for -1, the unbounded one, which the depth
    test never stops) as soon as the fuel exceeds the number of distinct
    names: a name already in the visited list is not expanded again, and
    the number of expansions (dependency lists requested) is at most the
    number of distinct names among [ports] and [U]. [build_graph], which
    runs up to two passes from the root, returns as well: the two passes
    share the visited list, so together they make at most one expansion
    more than that number (the root is expanded by each pass). *)
Theorem traversal_terminates popen self U ports fl da mr st fuel :
  (forall argv line, In line (popen argv) -> In (Py.rstrip line) U) ->
  List.length (nodup string_dec (ports :: U)) < fuel ->
  (exists st',
      _recurseports popen self fuel ports fl da mr st = Some st' /\
      expansions st'
      <= expansions st + List.length (nodup string_dec (ports :: U)))
  /\ (ports = root_port self st ->
      exists st',
        build_graph popen self fuel st = Some st' /\
        expansions st'
        <= expansions st + List.length (nodup string_dec (ports :: U)) + 1).
Proof.
  intros HU Hfuel.
  set (N := List.length (nodup string_dec (ports :: U))) in *.
  assert (HU' : forall argv line,
             In line (popen argv) -> In (Py.rstrip line) (ports :: U))
    by (intros argv line Hl; right; eapply HU; eassumption).
  assert (Hpass : forall fl' da' mr' s,
             exists s',
               _recurseports popen self fuel ports fl' da' mr' s = Some s' /\
               expansions s' <= expansions s + N /\
               (expansions s' <= expansions s + 1 \/
                expansions s' + remaining (ports :: U) (all_ports s')
                <= expansions s + N) /\
               expansions s' + remaining (ports :: U) (all_ports s')
               <= expansions s + 1 + remaining (ports :: U) (all_ports s)).
  { intros fl' da' mr' s.
    destruct (recurseports_total popen self (ports :: U) HU' fuel
                ports fl' da' mr' s) as [s' [E Hb]].
    - pose proof (remaining_le_nodup (ports :: U) (all_ports s)). lia.
    - exists s'. split; [exact E|].
      pose proof (call_bound_weak _ _ _ _ Hb) as Hw.
      destruct Hb as [Hi Hb].
      assert (Hroot : remaining (ports :: U) (all_ports s ++ [ports]) < N).
      { apply remaining_visited with (d := ports); [now left|].
        apply in_or_app. right. now left. }
      destruct Hb as [Hb|Hb]; repeat split; lia. }
  split.
  { destruct (Hpass fl da mr st) as [st' [E [H _]]]. now exists st'. }
  intros Hroot. unfold build_graph.
  set (st0 := if Py.truthy (flavor self) then _ else st).
  assert (Hp0 : Py.path_join (localbase self) (port st0) = ports).
  { rewrite Hroot. unfold root_port. subst st0.
    destruct (Py.truthy (flavor self)); reflexivity. }
  assert (Hex0 : expansions st0 = expansions st)
    by (subst st0; destruct (Py.truthy (flavor self)); reflexivity).
  rewrite Hp0.
  assert (Hfirst : exists st1,
             (if build self
              then _recurseports popen self fuel ports (flavor self)
                                 build_args (recursion self) st0
              else Some st0) = Some st1 /\
             port st1 = port st0 /\
             expansions st1 <= expansions st0 + N /\
             (expansions st1 <= expansions st0 + 1 \/
              expansions st1 + remaining (ports :: U) (all_ports st1)
              <= expansions st0 + N)).
  { destruct (build self).
    - destruct (Hpass (flavor self) build_args (recursion self) st0)
        as [st1 [E1 [H1 [H1' _]]]].
      exists st1. split; [exact E1|]. split; [|split; assumption].
      eapply recurseports_port; eassumption.
    - exists st0. repeat split; lia. }
  destruct Hfirst as [st1 [E1 [Hp1 [H1 H1']]]]. rewrite E1.
  destruct (run self).
  - rewrite Hp1, Hp0.
    destruct (Hpass (flavor self) run_args (recursion self) st1)
      as [st2 [E2 [H2 [_ H2']]]].
    exists st2. split; [exact E2|]. destruct H1' as [H1'|H1']; lia.
  - exists st1. split; [reflexivity | lia].
Qed.

Lemma traversal_terminates_witness :
  (exists st',
      _recurseports cyc_popen (fst cyc_init) 3 "/usr/ports/editors/foo" None
                    build_args (-1) (snd cyc_init) = Some st' /\
      expansions st'
      <= expansions (snd cyc_init)
         + List.length (nodup string_dec
                          ("/usr/ports/editors/foo" :: cyc_names)))
  /\ ("/usr/ports/editors/foo" = root_port (fst cyc_init) (snd cyc_init) ->
      exists st',
        build_graph cyc_popen (fst cyc_init) 3 (snd cyc_init) = Some st' /\
        expansions st'
        <= expansions (snd cyc_init)
           + List.length (nodup string_dec
                            ("/usr/ports/editors/foo" :: cyc_names)) + 1).
Proof.
  apply (traversal_terminates cyc_popen (fst cyc_init) cyc_names
           "/usr/ports/editors/foo" None build_args (-1) (snd cyc_init) 3).
  - apply table_popen_closed. reflexivity.
  - vm_compute. lia.
Defined.

(** ** The traces only grow *)

Lemma string_length_app (a b : string) :
  String.length (a ++ b)%string = String.length a + String.length b.
Proof. induction a as [|c a IH]; simpl; [reflexivity | now rewrite IH]. Qed.

Lemma depends_argv_not_maintainer portname kind fl :
  nth 3 (depends_argv portname kind fl) "" <> "maintainer".
Proof.
  unfold depends_argv. cbn [app nth]. intros H.
  apply (f_equal String.length) in H. rewrite string_length_app in H.
  simpl in H. lia.
Qed.

Lemma add_node_body popen self ports st :
  exists ext,
    body (graph (_add_node popen self ports st)) = body (graph st) ++ ext.
Proof.
  rewrite add_node_eq. cbv zeta.
  destruct (shown self _), (abandoned self); simpl;
    solve [eexists; reflexivity | exists []; now rewrite app_nil_r].
Qed.

Lemma add_node_procs popen self ports st :
  exists ext,
    procs (_add_node popen self ports st) = procs st ++ ext.
Proof.
  rewrite add_node_eq. cbv zeta.
  destruct (shown self _), (abandoned self); simpl;
    solve [eexists; reflexivity | exists []; now rewrite app_nil_r].
Qed.

Section Growth.

Variable popen : list string -> list string.
Variable self : Portgraph.

Lemma grows_refl st : grows st st.
Proof.
  repeat split; try (exists []; now rewrite app_nil_r).
Qed.

Lemma grows_trans st1 st2 st3 : grows st1 st2 -> grows st2 st3 -> grows st1 st3.
Proof.
  intros [[b1 Hb1] [[p1 Hp1] [[a1 Ha1] Hq1]]] [[b2 Hb2] [[p2 Hp2] [[a2 Ha2] Hq2]]].
  repeat split.
  - exists (b1 ++ b2). now rewrite Hb2, Hb1, app_assoc.
  - exists (p1 ++ p2). now rewrite Hp2, Hp1, app_assoc.
  - exists (a1 ++ a2). now rewrite Ha2, Ha1, app_assoc.
  - congruence.
Qed.

Lemma grows_print x st : grows st (print x st).
Proof. repeat split; exists []; simpl; now rewrite app_nil_r. Qed.

Lemma grows_visit x st : grows st (visit x st).
Proof.
  repeat split; try (exists []; simpl; now rewrite app_nil_r).
  exists [x]. reflexivity.
Qed.

Lemma grows_spawn argv st : grows st (spawn argv st).
Proof.
  repeat split; try (exists []; simpl; now rewrite app_nil_r).
  exists [argv]. reflexivity.
Qed.

Lemma grows_emit s st : grows st (emit s st).
Proof.
  repeat split; try (exists []; simpl; now rewrite app_nil_r).
  exists [s]. reflexivity.
Qed.

Lemma grows_add_node ports st : grows st (_add_node popen self ports st).
Proof.
  repeat split.
  - apply add_node_body.
  - apply add_node_procs.
  - exists []. now rewrite add_node_all_ports, app_nil_r.
  - apply add_node_port.
Qed.

Lemma recurseports_grows fuel ports fl da mr st st' :
  _recurseports popen self fuel ports fl da mr st = Some st' -> grows st st'.
Proof.
  apply (recurseports_invariant popen self (fun _ => True) (grows st));
    intros; trivial;
    try (eapply grows_trans; [eassumption|]);
    auto using grows_refl, grows_print, grows_visit, grows_spawn, grows_emit,
               grows_add_node.
Qed.

Lemma read_deps_grows fuel ports fl da mr out st st' :
  read_deps popen self (_recurseports popen self fuel) ports fl da mr out st
  = Some st' ->
  grows st st'.
Proof.
  apply (read_deps_invariant popen self (fun _ => True) (grows st));
    intros; trivial;
    try (eapply grows_trans; [eassumption|]);
    eauto using grows_refl, grows_print, grows_visit, grows_spawn, grows_emit,
                grows_add_node, recurseports_grows.
Qed.

Lemma build_graph_grows fuel st st' :
  build_graph popen self fuel st = Some st' ->
  (exists ext, body (graph st') = body (graph st) ++ ext) /\
  (exists ext, procs st' = procs st ++ ext) /\
  (exists ext, all_ports st' = all_ports st ++ ext).
Proof.
  unfold build_graph. set (st0 := if Py.truthy (flavor self) then _ else st).
  assert (H0 : body (graph st0) = body (graph st) /\ procs st0 = procs st
               /\ all_ports st0 = all_ports st)
    by (subst st0; destruct (Py.truthy (flavor self)); repeat split).
  destruct H0 as [Hb [Hp Ha]]. rewrite <- Hb, <- Hp, <- Ha. clearbody st0.
  intros H.
  assert (Hg : grows st0 st'); [|destruct Hg as [? [? [? _]]]; auto].
  destruct (build self).
  - destruct (_recurseports _ _ _ _ _ build_args _ st0) as [st1|] eqn:E1;
      [|discriminate].
    apply recurseports_grows in E1.
    destruct (run self).
    + apply recurseports_grows in H. eapply grows_trans; eassumption.
    + injection H as <-. assumption.
  - destruct (run self).
    + apply recurseports_grows in H. assumption.
    + injection H as <-. apply grows_refl.
Qed.

End Growth.

(** ** What the traversal writes *)

Section Written.

Variable popen : list string -> list string.
Variable self : Portgraph.
Variable Names : string -> Prop.

Hypothesis Names_deps :
  forall argv line, In line (popen argv) -> Names (Py.rstrip line).

Lemma build_graph_stmts (Q : stmt -> Prop) fuel st st' :
  (forall x, Names x -> shown self (_fullname2port x) = true ->
             Q (Node (_fullname2port x) (node_url self x)
                     (fst (node_style popen self x))
                     (snd (node_style popen self x)))) ->
  (forall x y c, Names x -> Names y -> shown self (_fullname2port y) = true ->
                 Q (Edge (_fullname2port x) (_fullname2port y) c)) ->
  Names (root_port self st) ->
  build_graph popen self fuel st = Some st' ->
  forall s, In s (body (graph st')) -> In s (body (graph st)) \/ Q s.
Proof.
  intros Hnode Hedge Hroot.
  apply (build_graph_invariant popen self Names
           (fun s0 => forall s, In s (body (graph s0)) ->
                                In s (body (graph st)) \/ Q s));
    auto.
  - intros x s0 Hx HP s. rewrite add_node_eq. cbv zeta.
    destruct (shown self (_fullname2port x)) eqn:E, (abandoned self); simpl;
      auto; intros Hin; apply in_app_or in Hin;
      destruct Hin as [Hin|[<-|[]]]; auto.
  - intros x y c s0 Hx Hy Hs HP s. simpl. intros Hin.
    apply in_app_or in Hin. destruct Hin as [Hin|[<-|[]]]; auto.
Qed.

Lemma build_graph_procs (R : list string -> Prop) fuel st st' :
  (forall x, Names x -> abandoned self = true ->
             R (maintainer_argv (_flavorname2port x))) ->
  (forall x kind fl, Names x -> R (depends_argv (_flavorname2port x) kind fl)) ->
  Names (root_port self st) ->
  build_graph popen self fuel st = Some st' ->
  forall argv, In argv (procs st') -> In argv (procs st) \/ R argv.
Proof.
  intros Hm Hd Hroot.
  apply (build_graph_invariant popen self Names
           (fun s0 => forall argv, In argv (procs s0) ->
                                   In argv (procs st) \/ R argv));
    auto.
  - intros x kind fl s0 Hx HP argv. simpl. intros Hin.
    apply in_app_or in Hin. destruct Hin as [Hin|[<-|[]]]; auto.
  - intros x s0 Hx HP argv. rewrite add_node_eq. cbv zeta.
    destruct (shown self (_fullname2port x)), (abandoned self) eqn:E; simpl;
      auto; intros Hin; apply in_app_or in Hin;
      destruct Hin as [Hin|[<-|[]]]; auto.
Qed.

End Written.

(** C3, as the code has it. Every node name and both ends of every edge
    that [build_graph] writes are [_fullname2port] of a name as it was met
    (the root with its flavor appended, or a line of the build tool): the
    last two components of the path, in which an [@flavor] suffix stays.
    The name cut before its last [@] is what the build tool receives as
    directory. *)
Theorem node_ids_keep_flavor popen self fuel st st' :
  build_graph popen self fuel st = Some st' ->
  (forall s,
      In s (body (graph st')) ->
      In s (body (graph st)) \/
      match s with
      | Node n _ _ _ =>
          exists x, port_name popen (root_port self st) x /\
                    n = _fullname2port x
      | Edge t h _ =>
          exists x y, port_name popen (root_port self st) x /\
                      port_name popen (root_port self st) y /\
                      t = _fullname2port x /\ h = _fullname2port y
      | Attr _ _ => False
      end)
  /\ (forall argv,
         In argv (procs st') ->
         In argv (procs st) \/
         exists x, port_name popen (root_port self st) x /\
                   nth 2 argv "" = _flavorname2port x)
  /\ (forall x f,
         count_char "/"%char f = 0 -> count_char "@"%char f = 0 ->
         _fullname2port (x ++ "@" ++ f)%string
         = (_fullname2port x ++ "@" ++ f)%string /\
         _flavorname2port (x ++ "@" ++ f)%string = x).
Proof.
  intros H.
  assert (Hdeps : forall argv line,
             In line (popen argv) ->
             port_name popen (root_port self st) (Py.rstrip line))
    by (intros argv line Hl; right; eauto).
  assert (Hroot : port_name popen (root_port self st) (root_port self st))
    by now left.
  split; [|split].
  - apply (build_graph_stmts popen self _ Hdeps _ fuel st st'); auto.
    + intros x Hx _. eauto.
    + intros x y c Hx Hy _. eauto 6.
  - apply (build_graph_procs popen self _ Hdeps _ fuel st st'); auto.
    + intros x Hx _. eauto.
    + intros x kind fl Hx. exists x. split; [assumption|].
      unfold depends_argv. reflexivity.
  - intros x f Hslash Hat. split.
    + apply fullname2port_keeps_flavor, Hslash.
    + apply flavorname2port_strips, Hat.
Qed.

Lemma node_ids_keep_flavor_witness :
  build_graph flavored_popen (fst flavored_init) 3 (snd flavored_init)
  = Some flavored_final /\
  (forall s,
      In s (body (graph flavored_final)) ->
      In s (body (graph (snd flavored_init))) \/
      match s with
      | Node n _ _ _ =>
          exists x,
            port_name flavored_popen
                      (root_port (fst flavored_init) (snd flavored_init)) x /\
            n = _fullname2port x
      | Edge t h _ =>
          exists x y,
            port_name flavored_popen
                      (root_port (fst flavored_init) (snd flavored_init)) x /\
            port_name flavored_popen
                      (root_port (fst flavored_init) (snd flavored_init)) y /\
            t = _fullname2port x /\ h = _fullname2port y
      | Attr _ _ => False
      end)
  /\ (forall argv,
         In argv (procs flavored_final) ->
         In argv (procs (snd flavored_init)) \/
         exists x,
           port_name flavored_popen
                     (root_port (fst flavored_init) (snd flavored_init)) x /\
           nth 2 argv "" = _flavorname2port x)
  /\ (forall x f,
         count_char "/"%char f = 0 -> count_char "@"%char f = 0 ->
         _fullname2port (x ++ "@" ++ f)%string
         = (_fullname2port x ++ "@" ++ f)%string /\
         _flavorname2port (x ++ "@" ++ f)%string = x).
Proof.
  split; [vm_compute; reflexivity|].
  apply (node_ids_keep_flavor flavored_popen (fst flavored_init) 3
           (snd flavored_init) flavored_final).
  vm_compute. reflexivity.
Defined.

(** C3 as stated fails: a node and both ends of an edge carry a flavor. *)
Lemma flavor_in_node_and_edge_ids :
  build_graph flavored_popen (fst flavored_init) 3 (snd flavored_init)
  = Some flavored_final /\
  In (Node "editors/vim@py" None "black" "filled")
     (body (graph flavored_final)) /\
  In (Edge "editors/vim@py" "lang/python@py39" "#009999")
     (body (graph flavored_final)) /\
  _flavorname2port "editors/vim@py" <> "editors/vim@py" /\
  _flavorname2port "lang/python@py39" <> "lang/python@py39".
Proof.
  split; [vm_compute; reflexivity|].
  split; [vm_compute; tauto|].
  split; [vm_compute; tauto|].
  split; vm_compute; discriminate.
Qed.

(** C2, the code at the failing input. With [with_pkg] false the package
    manager is still the tail of an edge: foo depends on ports-mgmt/pkg,
    which depends on devel/bar; the traversal enters ports-mgmt/pkg and
    records the edge that leaves it. *)
Theorem hidden_pkg_is_an_edge_source :
  with_pkg (fst pkg_init) = false /\
  exists st',
    build_graph pkg_popen (fst pkg_init) 3 (snd pkg_init) = Some st' /\
    In (Edge "ports-mgmt/pkg" "devel/bar" "#009999") (body (graph st')).
Proof.
  split; [reflexivity|].
  eexists. split; [vm_compute; reflexivity|].
  vm_compute. tauto.
Qed.

(** Where the package manager is hidden, it is never a node name nor the
    head of an edge. *)
Lemma hidden_pkg_not_node_nor_head popen self fuel st st' :
  with_pkg self = false ->
  build_graph popen self fuel st = Some st' ->
  forall s,
    In s (body (graph st')) ->
    In s (body (graph st)) \/
    match s with
    | Node n _ _ _ => n <> pkg self
    | Edge _ h _ => h <> pkg self
    | Attr _ _ => True
    end.
Proof.
  intros Hw H.
  assert (Hs : forall x, shown self x = true -> x <> pkg self).
  { intros x Hx ->. unfold shown in Hx.
    rewrite String.eqb_refl, Hw in Hx. discriminate. }
  apply (build_graph_stmts popen self (fun _ => True) (fun _ _ _ => I)
           _ fuel st st'); auto.
Qed.

(** ** More fuel changes nothing *)

Lemma read_deps_fuel_mono popen self r1 r2 ports fl da mr :
  (forall x fl' da' mr' st st',
      r1 x fl' da' mr' st = Some st' -> r2 x fl' da' mr' st = Some st') ->
  forall out st st',
    read_deps popen self r1 ports fl da mr out st = Some st' ->
    read_deps popen self r2 ports fl da mr out st = Some st'.
Proof.
  intros Hr out. induction out as [|line rest IH]; intros st st' H; simpl in *.
  - exact H.
  - destruct (String.eqb line ""); [exact H|].
    destruct (Py.mem _ _).
    + apply IH, H.
    + destruct (r1 _ _ _ _ _) as [st5|] eqn:E5; [|discriminate].
      rewrite (Hr _ _ _ _ _ _ E5). apply IH, H.
Qed.

Lemma recurseports_fuel_mono popen self fuel :
  forall fuel' ports fl da mr st st',
    fuel <= fuel' ->
    _recurseports popen self fuel ports fl da mr st = Some st' ->
    _recurseports popen self fuel' ports fl da mr st = Some st'.
Proof.
  induction fuel as [|fuel IH]; intros fuel' ports fl da mr st st' Hle H;
    [discriminate|].
  destruct fuel' as [|fuel']; [lia|]. simpl in *.
  destruct (mr =? 0)%Z; [exact H|].
  eapply read_deps_fuel_mono; [|exact H].
  intros. apply IH; [lia | assumption].
Qed.

(** ** Edges to the direct dependencies *)

Lemma read_deps_edges popen self fuel ports fl da mr :
  forall out st st',
    read_deps popen self (_recurseports popen self fuel) ports fl da mr out st
    = Some st' ->
    forall line,
      In line (lines_read out) ->
      shown self (_fullname2port (Py.rstrip line)) = true ->
      In (Edge (_fullname2port ports) (_fullname2port (Py.rstrip line))
               (snd da))
         (body (graph st')).
Proof.
  induction out as [|l rest IH]; intros st st' H line Hl Hs; simpl in *.
  - contradiction.
  - destruct (String.eqb l ""); [contradiction|].
    destruct Hl as [->|Hl].
    + rewrite Hs in H.
      set (st2 := emit _ (visit ports st)) in H.
      assert (Hin : In (Edge (_fullname2port ports)
                             (_fullname2port (Py.rstrip line)) (snd da))
                       (body (graph st2)))
        by (subst st2; simpl; apply in_or_app; right; now left).
      assert (Hg : grows st2 st').
      { destruct (Py.mem _ _).
        - eapply read_deps_grows; eassumption.
        - destruct (_recurseports _ _ _ _ _ _ _ _) as [st5|] eqn:E5;
            [|discriminate].
          apply recurseports_grows in E5. apply read_deps_grows in H.
          eapply grows_trans; [|exact H].
          eapply grows_trans; [|exact E5].
          eapply grows_trans; [apply grows_add_node | apply grows_visit]. }
      destruct Hg as [[ext Hb] _]. rewrite Hb. apply in_or_app. now left.
    + destruct (Py.mem _ _).
      * eapply IH; eassumption.
      * destruct (_recurseports _ _ _ _ _ _ _ _) as [st5|] eqn:E5;
          [|discriminate].
        eapply IH; eassumption.
Qed.

Lemma recurseports_edges popen self fuel ports fl da mr st st' :
  mr <> 0%Z ->
  _recurseports popen self fuel ports fl da mr st = Some st' ->
  forall line,
    In line (lines_read
               (popen (depends_argv (_flavorname2port ports) (fst da) fl))) ->
    shown self (_fullname2port (Py.rstrip line)) = true ->
    In (Edge (_fullname2port ports) (_fullname2port (Py.rstrip line)) (snd da))
       (body (graph st')).
Proof.
  intros Hmr H. destruct fuel as [|fuel]; [discriminate|]. simpl in H.
  apply Z.eqb_neq in Hmr. rewrite Hmr in H.
  eapply read_deps_edges. exact H.
Qed.

Lemma build_graph_unfold popen self fuel st :
  build_graph popen self fuel st =
  match
    (if build self
     then _recurseports popen self fuel (root_port self st) (flavor self)
                        build_args (recursion self) (append_flavor self st)
     else Some (append_flavor self st))
  with
  | Some st1 =>
      if run self
      then _recurseports popen self fuel (root_port self st) (flavor self)
                         run_args (recursion self) st1
      else Some st1
  | None => None
  end.
Proof.
  unfold build_graph, root_port, append_flavor.
  set (st0 := if Py.truthy (flavor self) then _ else st).
  assert (Hp0 : Py.path_join (localbase self) (port st0)
                = Py.path_join (localbase self)
                    (if Py.truthy (flavor self)
                     then (port st ++ "@" ++ Py.str_of (flavor self))%string
                     else port st))
    by (subst st0; destruct (Py.truthy (flavor self)); reflexivity).
  rewrite <- Hp0. clearbody st0.
  destruct (build self).
  - destruct (_recurseports _ _ _ _ _ build_args _ st0) as [st1|] eqn:E1;
      [|reflexivity].
    apply recurseports_port in E1. now rewrite E1.
  - reflexivity.
Qed.

(** C5, as the code has it. With a depth budget of zero [build_graph]
    returns at once: the graph, the visited list and the process trace are
    unchanged, so no node, not even the root's, and no edge is written. *)
Theorem depth_zero_adds_nothing popen self fuel st :
  recursion self = 0%Z -> 0 < fuel ->
  exists st',
    build_graph popen self fuel st = Some st' /\
    graph st' = graph st /\ procs st' = procs st /\
    all_ports st' = all_ports st.
Proof.
  intros Hr Hf. rewrite build_graph_unfold, Hr.
  destruct fuel as [|fuel]; [lia|]. simpl.
  exists (append_flavor self st).
  split; [destruct (build self), (run self); reflexivity|].
  unfold append_flavor. destruct (Py.truthy (flavor self)); repeat split.
Qed.

Lemma depth_zero_adds_nothing_witness :
  recursion (fst zero_init) = 0%Z /\ 0 < 3 /\
  exists st',
    build_graph cyc_popen (fst zero_init) 3 (snd zero_init) = Some st' /\
    graph st' = graph (snd zero_init) /\ procs st' = procs (snd zero_init) /\
    all_ports st' = all_ports (snd zero_init).
Proof.
  split; [reflexivity|]. split; [lia|].
  apply (depth_zero_adds_nothing cyc_popen (fst zero_init) 3 (snd zero_init));
    [reflexivity | lia].
Defined.

(** C5 as stated fails: the root has no node. *)
Lemma depth_zero_graph_lacks_root :
  recursion (fst zero_init) = 0%Z /\
  shown (fst zero_init) "editors/foo" = true /\
  exists st',
    build_graph cyc_popen (fst zero_init) 3 (snd zero_init) = Some st' /\
    forall n u c s, ~ In (Node n u c s) (body (graph st')).
Proof.
  split; [reflexivity|]. split; [reflexivity|].
  eexists. split; [vm_compute; reflexivity|].
  intros n u c s H. vm_compute in H.
  destruct H as [H|[]]. discriminate.
Qed.

(** X18. With both passes requested and a depth budget that is not zero,
    [build_graph] is the build pass followed by the run pass started in the
    state the build pass left, visited list included. The run pass asks for
    at most one dependency list more than there are names of the collection
    missing from that list, and the graph holds the edge from the root to
    each shown line of its build list in the build colour and to each shown
    line of its run list in the run colour. *)
Theorem passes_share_visited_list popen self U fuel st st' :
  (forall argv line, In line (popen argv) -> In (Py.rstrip line) U) ->
  build self = true -> run self = true -> recursion self <> 0%Z ->
  build_graph popen self fuel st = Some st' ->
  exists st1,
    _recurseports popen self fuel (root_port self st) (flavor self)
                  build_args (recursion self) (append_flavor self st)
    = Some st1 /\
    _recurseports popen self fuel (root_port self st) (flavor self)
                  run_args (recursion self) st1
    = Some st' /\
    expansions st' <= expansions st1 + 1 + remaining U (all_ports st1) /\
    (forall line,
        In line (lines_read
                   (popen (depends_argv (_flavorname2port (root_port self st))
                                        "build" (flavor self)))) ->
        shown self (_fullname2port (Py.rstrip line)) = true ->
        In (Edge (_fullname2port (root_port self st))
                 (_fullname2port (Py.rstrip line)) "#009999")
           (body (graph st'))) /\
    (forall line,
        In line (lines_read
                   (popen (depends_argv (_flavorname2port (root_port self st))
                                        "run" (flavor self)))) ->
        shown self (_fullname2port (Py.rstrip line)) = true ->
        In (Edge (_fullname2port (root_port self st))
                 (_fullname2port (Py.rstrip line)) "#990000")
           (body (graph st'))).
Proof.
  intros HU Hb Hr Hmr H. rewrite build_graph_unfold, Hb, Hr in H.
  destruct (_recurseports _ _ _ _ _ build_args _ _) as [st1|] eqn:E1;
    [|discriminate].
  exists st1. split; [reflexivity|]. split; [exact H|]. split; [|split].
  - destruct (recurseports_total popen self U HU
                (Nat.max fuel (S (remaining U (all_ports st1))))
                (root_port self st) (flavor self) run_args (recursion self) st1)
      as [s [Es Hs]]; [lia|].
    rewrite (recurseports_fuel_mono popen self fuel _ _ _ _ _ _ _
               (Nat.le_max_l _ _) H) in Es.
    injection Es as <-.
    pose proof (call_bound_weak U _ _ _ Hs).
    pose proof (remaining_le_nodup U (all_ports st')). lia.
  - intros line Hl Hs.
    pose proof (recurseports_edges popen self fuel _ _ _ _ _ _ Hmr E1 line Hl Hs)
      as Hin.
    apply recurseports_grows in H. destruct H as [[ext Hx] _].
    rewrite Hx. apply in_or_app. now left.
  - intros line Hl Hs.
    exact (recurseports_edges popen self fuel _ _ _ _ _ _ Hmr H line Hl Hs).
Qed.

Lemma passes_share_visited_list_witness :
  exists st1,
    _recurseports both_popen (fst both_init) 4
                  (root_port (fst both_init) (snd both_init))
                  (flavor (fst both_init)) build_args
                  (recursion (fst both_init))
                  (append_flavor (fst both_init) (snd both_init))
    = Some st1 /\
    _recurseports both_popen (fst both_init) 4
                  (root_port (fst both_init) (snd both_init))
                  (flavor (fst both_init)) run_args
                  (recursion (fst both_init)) st1
    = Some both_final /\
    expansions both_final
    <= expansions st1 + 1 + remaining both_names (all_ports st1) /\
    (forall line,
        In line (lines_read
                   (both_popen
                      (depends_argv
                         (_flavorname2port
                            (root_port (fst both_init) (snd both_init)))
                         "build" (flavor (fst both_init))))) ->
        shown (fst both_init) (_fullname2port (Py.rstrip line)) = true ->
        In (Edge (_fullname2port (root_port (fst both_init) (snd both_init)))
                 (_fullname2port (Py.rstrip line)) "#009999")
           (body (graph both_final))) /\
    (forall line,
        In line (lines_read
                   (both_popen
                      (depends_argv
                         (_flavorname2port
                            (root_port (fst both_init) (snd both_init)))
                         "run" (flavor (fst both_init))))) ->
        shown (fst both_init) (_fullname2port (Py.rstrip line)) = true ->
        In (Edge (_fullname2port (root_port (fst both_init) (snd both_init)))
                 (_fullname2port (Py.rstrip line)) "#990000")
           (body (graph both_final))).
Proof.
  apply (passes_share_visited_list both_popen (fst both_init) both_names 4
           (snd both_init) both_final).
  - apply table_popen_closed. reflexivity.
  - reflexivity.
  - reflexivity.
  - vm_compute. discriminate.
  - vm_compute. reflexivity.
Defined.

(** C4, the code at the failing input. foo needs a and a needs b, for
    build and for run alike. With both passes requested the run pass finds
    a in the visited list the build pass filled: it never asks for the run
    dependencies of a, and the run edge from a to b is missing, while the
    run pass alone, on the same collection, writes it. *)
Theorem run_pass_skips_visited_ports :
  (build (fst both_init) = true /\ run (fst both_init) = true) /\
  (build (fst runonly_init) = false /\ run (fst runonly_init) = true) /\
  build_graph both_popen (fst both_init) 4 (snd both_init) = Some both_final /\
  build_graph both_popen (fst runonly_init) 4 (snd runonly_init)
  = Some runonly_final /\
  lines_read (both_popen (depends_argv "/usr/ports/devel/a" "build" None))
  = [("/usr/ports/devel/b" ++ nl)%string] /\
  lines_read (both_popen (depends_argv "/usr/ports/devel/a" "run" None))
  = [("/usr/ports/devel/b" ++ nl)%string] /\
  In (Edge "editors/foo" "devel/a" "#009999") (body (graph both_final)) /\
  In (Edge "editors/foo" "devel/a" "#990000") (body (graph both_final)) /\
  In (Edge "devel/a" "devel/b" "#009999") (body (graph both_final)) /\
  ~ In (Edge "devel/a" "devel/b" "#990000") (body (graph both_final)) /\
  ~ In (depends_argv "/usr/ports/devel/a" "run" None) (procs both_final) /\
  In (Edge "devel/a" "devel/b" "#990000") (body (graph runonly_final)) /\
  In (depends_argv "/usr/ports/devel/a" "run" None) (procs runonly_final).
Proof.
  split; [split; reflexivity|].
  split; [split; reflexivity|].
  split; [vm_compute; reflexivity|].
  split; [vm_compute; reflexivity|].
  split; [vm_compute; reflexivity|].
  split; [vm_compute; reflexivity|].
  split; [vm_compute; tauto|].
  split; [vm_compute; tauto|].
  split; [vm_compute; tauto|].
  split.
  { vm_compute. intros H.
    repeat (destruct H as [H|H]; [discriminate|]). exact H. }
  split.
  { vm_compute. intros H.
    repeat (destruct H as [H|H]; [discriminate|]). exact H. }
  split; vm_compute; tauto.
Qed.

(** ** One turn of the loop *)

Section OneTurn.

Variable popen : list string -> list string.
Variable self : Portgraph.
Variables (fuel : nat) (ports : string) (fl : option string)
          (da : string * string) (mr : Z).

Lemma read_deps_app xs ys st :
  ~ In "" xs ->
  read_deps popen self (_recurseports popen self fuel) ports fl da mr
    (xs ++ ys) st =
  match read_deps popen self (_recurseports popen self fuel) ports fl da mr
                  xs st with
  | Some s =>
      read_deps popen self (_recurseports popen self fuel) ports fl da mr ys s
  | None => None
  end.
Proof.
  revert st. induction xs as [|l xs IH]; intros st Hne; simpl.
  - reflexivity.
  - destruct (String.eqb l "") eqn:El.
    + apply String.eqb_eq in El. subst l. exfalso. apply Hne. now left.
    + assert (Hne' : ~ In "" xs) by (intros Hin; apply Hne; now right).
      destruct (Py.mem _ _).
      * apply IH, Hne'.
      * destruct (_recurseports _ _ _ _ _ _ _ _) as [st5|]; [|reflexivity].
        apply IH, Hne'.
Qed.

Lemma read_deps_visited line rest st :
  line <> "" ->
  In (Py.rstrip line) (all_ports st ++ [ports]) ->
  read_deps popen self (_recurseports popen self fuel) ports fl da mr
    (line :: rest) st
  = read_deps popen self (_recurseports popen self fuel) ports fl da mr
      rest (record_edge self ports (Py.rstrip line) (snd da) st).
Proof.
  intros Hl Hin. simpl.
  apply String.eqb_neq in Hl. rewrite Hl.
  unfold record_edge.
  assert (Hm : Py.mem (Py.rstrip line)
                 (all_ports (if shown self (_fullname2port (Py.rstrip line))
                             then emit (Edge (_fullname2port ports)
                                             (_fullname2port (Py.rstrip line))
                                             (snd da)) (visit ports st)
                             else visit ports st)) = true).
  { apply mem_In. destruct (shown self _); exact Hin. }
  rewrite Hm. reflexivity.
Qed.

Lemma read_deps_head line rest st st' :
  line <> "" ->
  read_deps popen self (_recurseports popen self fuel) ports fl da mr
    (line :: rest) st = Some st' ->
  grows (record_edge self ports (Py.rstrip line) (snd da) st) st'.
Proof.
  intros Hl H. simpl in H.
  apply String.eqb_neq in Hl. rewrite Hl in H.
  fold (record_edge self ports (Py.rstrip line) (snd da) st) in H.
  destruct (Py.mem _ _).
  - eapply read_deps_grows; eassumption.
  - destruct (_recurseports _ _ _ _ _ _ _ _) as [st5|] eqn:E5; [|discriminate].
    apply recurseports_grows in E5. apply read_deps_grows in H.
    eapply grows_trans; [|exact H].
    eapply grows_trans; [|exact E5].
    eapply grows_trans; [apply grows_add_node | apply grows_visit].
Qed.

Lemma read_deps_head_visited line rest st st' :
  line <> "" ->
  read_deps popen self (_recurseports popen self fuel) ports fl da mr
    (line :: rest) st = Some st' ->
  In (Py.rstrip line) (all_ports st').
Proof.
  intros Hl H. pose proof H as H0. simpl in H.
  apply String.eqb_neq in Hl. rewrite Hl in H.
  fold (record_edge self ports (Py.rstrip line) (snd da) st) in H.
  destruct (Py.mem _ _) eqn:Em.
  - apply mem_In in Em. apply read_deps_grows in H.
    destruct H as [_ [_ [[ext Ha] _]]]. rewrite Ha.
    apply in_or_app. now left.
  - destruct (_recurseports _ _ _ _ _ _ _ _) as [st5|] eqn:E5; [|discriminate].
    apply recurseports_grows in E5. apply read_deps_grows in H.
    pose proof (grows_trans _ _ _ E5 H) as [_ [_ [[ext Ha] _]]].
    rewrite Ha. apply in_or_app. left. simpl.
    apply in_or_app. right. now left.
Qed.

End OneTurn.

Lemma record_edge_body self ports d color st :
  shown self (_fullname2port d) = true ->
  body (graph (record_edge self ports d color st))
  = body (graph st)
    ++ [Edge (_fullname2port ports) (_fullname2port d) color].
Proof. intros Hs. unfold record_edge. rewrite Hs. reflexivity. Qed.

Lemma record_edge_procs self ports d color st :
  procs (record_edge self ports d color st) = procs st.
Proof. unfold record_edge. destruct (shown self _); reflexivity. Qed.

Lemma record_edge_all_ports self ports d color st :
  all_ports (record_edge self ports d color st) = all_ports st ++ [ports].
Proof. unfold record_edge. destruct (shown self _); reflexivity. Qed.

(** C9, as the code has it. When the dependency list holds the same
    dependency at two places, the loop reaches the second one with the
    dependency in the visited list; there it only appends the port to the
    list and records the edge if the dependency is shown: no process is
    started and nothing is expanded. Where the dependency is shown the
    graph holds the edge twice. *)
Theorem repeated_dependency_expanded_once
    popen self fuel ports fl da mr pre l1 mid l2 post st st' :
  ~ In "" (pre ++ l1 :: mid ++ [l2]) ->
  Py.rstrip l1 = Py.rstrip l2 ->
  read_deps popen self (_recurseports popen self fuel) ports fl da mr
            (pre ++ l1 :: mid ++ l2 :: post) st = Some st' ->
  exists s1,
    read_deps popen self (_recurseports popen self fuel) ports fl da mr
              (pre ++ l1 :: mid) st = Some s1 /\
    In (Py.rstrip l2) (all_ports s1) /\
    read_deps popen self (_recurseports popen self fuel) ports fl da mr
              post (record_edge self ports (Py.rstrip l2) (snd da) s1)
    = Some st' /\
    procs (record_edge self ports (Py.rstrip l2) (snd da) s1) = procs s1 /\
    (shown self (_fullname2port (Py.rstrip l2)) = true ->
     exists A B C,
       body (graph st')
       = body (graph st)
         ++ A ++ Edge (_fullname2port ports) (_fullname2port (Py.rstrip l2))
                      (snd da)
              :: B ++ Edge (_fullname2port ports)
                           (_fullname2port (Py.rstrip l2)) (snd da)
                   :: C).
Proof.
  intros Hne Heq H.
  assert (Hpre : ~ In "" pre)
    by (intros Hin; apply Hne, in_or_app; now left).
  assert (Hl1 : l1 <> "")
    by (intros ->; apply Hne, in_or_app; right; now left).
  assert (Hmid : ~ In "" (l1 :: mid)).
  { intros Hin. apply Hne, in_or_app. right.
    destruct Hin as [Hin|Hin]; [now left | right].
    apply in_or_app. now left. }
  assert (Hl2 : l2 <> "").
  { intros ->. apply Hne, in_or_app. right. right.
    apply in_or_app. right. now left. }
  rewrite (read_deps_app popen self fuel ports fl da mr pre _ st Hpre) in H.
  destruct (read_deps _ _ _ _ _ _ _ pre st) as [s0|] eqn:E0; [|discriminate].
  change (l1 :: mid ++ l2 :: post) with ((l1 :: mid) ++ l2 :: post) in H.
  rewrite (read_deps_app popen self fuel ports fl da mr _ _ s0 Hmid) in H.
  destruct (read_deps _ _ _ _ _ _ _ (l1 :: mid) s0) as [s1|] eqn:E1;
    [|discriminate].
  assert (Hvis : In (Py.rstrip l2) (all_ports s1)).
  { rewrite <- Heq.
    eapply read_deps_head_visited; [exact Hl1 | exact E1]. }
  rewrite (read_deps_visited popen self fuel ports fl da mr l2 post s1 Hl2) in H
    by (apply in_or_app; now left).
  exists s1. split; [|split; [exact Hvis|split; [exact H|split]]].
  - rewrite (read_deps_app popen self fuel ports fl da mr pre _ st Hpre), E0.
    exact E1.
  - apply record_edge_procs.
  - intros Hs.
    apply read_deps_grows in E0. destruct E0 as [[A HA] _].
    pose proof (read_deps_head popen self fuel ports fl da mr l1 mid s0 s1
                  Hl1 E1) as [[B HB] _].
    rewrite Heq, record_edge_body in HB by exact Hs.
    apply read_deps_grows in H. destruct H as [[C HC] _].
    rewrite record_edge_body in HC by exact Hs.
    exists A, B, C. rewrite HC, HB, HA.
    rewrite <- !app_assoc. reflexivity.
Qed.

Lemma repeated_dependency_expanded_once_witness :
  exists s1,
    dup_loop ([] ++ ("/usr/ports/devel/bar" ++ nl)%string :: []) (snd dup_init)
    = Some s1 /\
    In (Py.rstrip ("/usr/ports/devel/bar" ++ nl)%string) (all_ports s1) /\
    dup_loop [] (record_edge (fst dup_init) "/usr/ports/editors/foo"
                   (Py.rstrip ("/usr/ports/devel/bar" ++ nl)%string)
                   (snd build_args) s1)
    = Some dup_final /\
    procs (record_edge (fst dup_init) "/usr/ports/editors/foo"
             (Py.rstrip ("/usr/ports/devel/bar" ++ nl)%string)
             (snd build_args) s1) = procs s1 /\
    (shown (fst dup_init)
           (_fullname2port (Py.rstrip ("/usr/ports/devel/bar" ++ nl)%string))
     = true ->
     exists A B C,
       body (graph dup_final)
       = body (graph (snd dup_init))
         ++ A ++ Edge (_fullname2port "/usr/ports/editors/foo")
                      (_fullname2port
                         (Py.rstrip ("/usr/ports/devel/bar" ++ nl)%string))
                      (snd build_args)
              :: B ++ Edge (_fullname2port "/usr/ports/editors/foo")
                           (_fullname2port
                              (Py.rstrip ("/usr/ports/devel/bar" ++ nl)%string))
                           (snd build_args)
                   :: C).
Proof.
  apply (repeated_dependency_expanded_once dup_popen (fst dup_init) 2
           "/usr/ports/editors/foo" None build_args (-1)
           [] ("/usr/ports/devel/bar" ++ nl)%string
           [] ("/usr/ports/devel/bar" ++ nl)%string [] (snd dup_init) dup_final).
  - simpl. intros [H|[H|[]]]; discriminate.
  - reflexivity.
  - vm_compute. reflexivity.
Defined.

(** C9 as stated fails: a hidden dependency listed twice gets no edge. *)
Lemma hidden_duplicate_has_no_edge :
  with_pkg (fst pkg_init) = false /\
  map Py.rstrip
      (lines_read (duppkg_popen
                     (depends_argv "/usr/ports/editors/foo" "build" None)))
  = ["/usr/ports/ports-mgmt/pkg"; "/usr/ports/ports-mgmt/pkg"] /\
  exists st',
    build_graph duppkg_popen (fst pkg_init) 3 (snd pkg_init) = Some st' /\
    forall t h c, ~ In (Edge t h c) (body (graph st')).
Proof.
  split; [reflexivity|]. split; [vm_compute; reflexivity|].
  eexists. split; [vm_compute; reflexivity|].
  intros t h c H. vm_compute in H.
  repeat (destruct H as [H|H]; [discriminate|]). exact H.
Qed.

(** C10. A dependency that is not yet visited and is entered with a depth
    budget other than zero has [_add_node] run twice in a row, once before
    the recursive call and once on entry. With the maintainer check enabled
    the maintainer is asked twice, before the dependency list is; where the
    dependency is shown, two node statements follow the edge. *)
Theorem dependency_node_added_twice
    popen self fuel ports fl da mr line rest st st' :
  line <> "" ->
  ~ In (Py.rstrip line) (all_ports st ++ [ports]) ->
  (mr - 1 <> 0)%Z ->
  read_deps popen self (_recurseports popen self fuel) ports fl da mr
            (line :: rest) st = Some st' ->
  (abandoned self = true ->
   exists tail,
     procs st'
     = procs st
       ++ maintainer_argv (_flavorname2port (Py.rstrip line))
       :: maintainer_argv (_flavorname2port (Py.rstrip line))
       :: depends_argv (_flavorname2port (Py.rstrip line)) (fst da) fl
       :: tail)
  /\ (shown self (_fullname2port (Py.rstrip line)) = true ->
      exists tail,
        body (graph st')
        = body (graph st)
          ++ Edge (_fullname2port ports) (_fullname2port (Py.rstrip line))
                  (snd da)
          :: Node (_fullname2port (Py.rstrip line))
                  (node_url self (Py.rstrip line))
                  (fst (node_style popen self (Py.rstrip line)))
                  (snd (node_style popen self (Py.rstrip line)))
          :: Node (_fullname2port (Py.rstrip line))
                  (node_url self (Py.rstrip line))
                  (fst (node_style popen self (Py.rstrip line)))
                  (snd (node_style popen self (Py.rstrip line)))
          :: tail).
Proof.
  intros Hl Hnew Hmr H. simpl in H.
  apply String.eqb_neq in Hl. rewrite Hl in H.
  fold (record_edge self ports (Py.rstrip line) (snd da) st) in H.
  set (d := Py.rstrip line) in *.
  set (st2 := record_edge self ports d (snd da) st) in H.
  assert (Hm : Py.mem d (all_ports st2) = false).
  { apply mem_false. subst st2. now rewrite record_edge_all_ports. }
  rewrite Hm in H.
  set (st4 := visit d (_add_node popen self d st2)) in H.
  destruct (_recurseports popen self fuel d fl da (mr - 1) st4) as [st7|] eqn:E7;
    [|discriminate].
  apply read_deps_grows in H.
  destruct fuel as [|fuel]; [discriminate|]. simpl in E7.
  apply Z.eqb_neq in Hmr. rewrite Hmr in E7.
  set (st5 := if verbose self then print d st4 else st4) in E7.
  set (st6 := spawn (depends_argv (_flavorname2port d) (fst da) fl)
                    (_add_node popen self d st5)) in E7.
  apply read_deps_grows in E7.
  pose proof (grows_trans _ _ _ E7 H) as [[bext Hb] [[pext Hp] _]].
  split.
  - intros Hab. exists pext. rewrite Hp. subst st6 st5 st4 st2.
    rewrite !add_node_eq. cbv zeta. rewrite Hab.
    destruct (shown self (_fullname2port d)), (verbose self); simpl;
      rewrite ?record_edge_procs, <- ?app_assoc; reflexivity.
  - intros Hs. exists bext. rewrite Hb. subst st6 st5 st4 st2.
    rewrite !add_node_eq. cbv zeta. rewrite Hs.
    destruct (abandoned self), (verbose self); simpl;
      rewrite record_edge_body by exact Hs;
      rewrite <- ?app_assoc; reflexivity.
Qed.

Lemma dependency_node_added_twice_witness :
  (abandoned (fst dup_init) = true ->
   exists tail,
     procs dup_final
     = procs (snd dup_init)
       ++ maintainer_argv
            (_flavorname2port (Py.rstrip ("/usr/ports/devel/bar" ++ nl)%string))
       :: maintainer_argv
            (_flavorname2port (Py.rstrip ("/usr/ports/devel/bar" ++ nl)%string))
       :: depends_argv
            (_flavorname2port (Py.rstrip ("/usr/ports/devel/bar" ++ nl)%string))
            (fst build_args) None
       :: tail)
  /\ (shown (fst dup_init)
            (_fullname2port (Py.rstrip ("/usr/ports/devel/bar" ++ nl)%string))
      = true ->
      exists tail,
        body (graph dup_final)
        = body (graph (snd dup_init))
          ++ Edge (_fullname2port "/usr/ports/editors/foo")
                  (_fullname2port
                     (Py.rstrip ("/usr/ports/devel/bar" ++ nl)%string))
                  (snd build_args)
          :: Node (_fullname2port
                     (Py.rstrip ("/usr/ports/devel/bar" ++ nl)%string))
                  (node_url (fst dup_init)
                     (Py.rstrip ("/usr/ports/devel/bar" ++ nl)%string))
                  (fst (node_style dup_popen (fst dup_init)
                          (Py.rstrip ("/usr/ports/devel/bar" ++ nl)%string)))
                  (snd (node_style dup_popen (fst dup_init)
                          (Py.rstrip ("/usr/ports/devel/bar" ++ nl)%string)))
          :: Node (_fullname2port
                     (Py.rstrip ("/usr/ports/devel/bar" ++ nl)%string))
                  (node_url (fst dup_init)
                     (Py.rstrip ("/usr/ports/devel/bar" ++ nl)%string))
                  (fst (node_style dup_popen (fst dup_init)
                          (Py.rstrip ("/usr/ports/devel/bar" ++ nl)%string)))
                  (snd (node_style dup_popen (fst dup_init)
                          (Py.rstrip ("/usr/ports/devel/bar" ++ nl)%string)))
          :: tail).
Proof.
  apply (dependency_node_added_twice dup_popen (fst dup_init) 2
           "/usr/ports/editors/foo" None build_args (-1)
           ("/usr/ports/devel/bar" ++ nl)%string
           [("/usr/ports/devel/bar" ++ nl)%string] (snd dup_init) dup_final).
  - discriminate.
  - vm_compute. intros [H|[]]. discriminate.
  - lia.
  - vm_compute. reflexivity.
Defined.

Section BatchFacts.

Variable popen : list string -> list string.
Variable makedirs_ok : string -> bool.
Variable render_ok : string -> Digraph -> bool.
Variable scandir : string -> option (list (string * bool)).
Variables (fuel : nat) (localbase0 : string) (flavor0 : option string)
          (with_pkg0 verbose0 : bool) (recursion0 : Z)
          (url0 suffix0 : option string) (build0 run0 abandoned0 clean : bool).

Lemma graph4port_raised port0 w w' :
  graph4port popen makedirs_ok render_ok fuel port0 localbase0 flavor0
             with_pkg0 verbose0 recursion0 url0 suffix0 build0 run0
             abandoned0 clean w = Raised w' ->
  w' = w.
Proof.
  unfold graph4port. cbv zeta.
  destruct (Portgraph_init _ _ _ _ _ _ _ _ _ _ _ _) as [pg st0].
  destruct (build_graph _ _ _ _) as [st|]; [|discriminate].
  destruct (makedirs_ok _); [destruct (render_ok _ _)|]; intros H;
    try discriminate; now injection H.
Qed.

Lemma for_ports_app cat pre rest w :
  for_ports popen makedirs_ok render_ok fuel localbase0 flavor0 with_pkg0
            verbose0 recursion0 url0 suffix0 build0 run0 abandoned0 clean
            cat (pre ++ rest) w =
  match for_ports popen makedirs_ok render_ok fuel localbase0 flavor0 with_pkg0
                  verbose0 recursion0 url0 suffix0 build0 run0 abandoned0 clean
                  cat pre w with
  | Returned w1 =>
      for_ports popen makedirs_ok render_ok fuel localbase0 flavor0 with_pkg0
                verbose0 recursion0 url0 suffix0 build0 run0 abandoned0 clean
                cat rest w1
  | other => other
  end.
Proof.
  revert w. induction pre as [|p pre IH]; intros w; simpl.
  - reflexivity.
  - destruct (graph4port _ _ _ _ _ _ _ _ _ _ _ _ _ _ _ _ _); auto.
Qed.

Lemma for_cats_app pre rest w :
  for_cats popen makedirs_ok render_ok scandir fuel localbase0 flavor0
           with_pkg0 verbose0 recursion0 url0 suffix0 build0 run0 abandoned0
           clean (pre ++ rest) w =
  match for_cats popen makedirs_ok render_ok scandir fuel localbase0 flavor0
                 with_pkg0 verbose0 recursion0 url0 suffix0 build0 run0
                 abandoned0 clean pre w with
  | Returned w1 =>
      for_cats popen makedirs_ok render_ok scandir fuel localbase0 flavor0
               with_pkg0 verbose0 recursion0 url0 suffix0 build0 run0
               abandoned0 clean rest w1
  | other => other
  end.
Proof.
  revert w. induction pre as [|c pre IH]; intros w; simpl.
  - reflexivity.
  - destruct (scan scandir _); [|reflexivity].
    destruct (for_ports _ _ _ _ _ _ _ _ _ _ _ _ _ _ _ _ _ _); auto.
Qed.

(** C7, as the code has it. The batch stops at the first port whose
    [graph4port] raises: the exception leaves [graph4allports] with the
    artifacts rendered so far, and the ports and categories after it are
    not processed. *)
Theorem batch_stops_at_first_failure
    es cpre cat cpost ps pre p post w w0 w1 w2 :
  scan scandir localbase0 = Some es ->
  filter (fun rec => is_dir rec && negb (Py.mem (entry_name rec) excluded)) es
  = cpre ++ cat :: cpost ->
  for_cats popen makedirs_ok render_ok scandir fuel localbase0 flavor0
           with_pkg0 verbose0 recursion0 url0 suffix0 build0 run0 abandoned0
           clean cpre w = Returned w0 ->
  scan scandir (Py.path_join localbase0 (entry_path cat)) = Some ps ->
  filter is_dir ps = pre ++ p :: post ->
  for_ports popen makedirs_ok render_ok fuel localbase0 flavor0 with_pkg0
            verbose0 recursion0 url0 suffix0 build0 run0 abandoned0 clean
            cat pre w0 = Returned w1 ->
  graph4port popen makedirs_ok render_ok fuel
             (Py.path_join (entry_name cat) (entry_name p))
             localbase0 flavor0 with_pkg0 verbose0 recursion0 url0 suffix0
             build0 run0 abandoned0 clean w1 = Raised w2 ->
  graph4allports popen makedirs_ok render_ok scandir fuel localbase0 flavor0
                 with_pkg0 verbose0 recursion0 url0 suffix0 build0 run0
                 abandoned0 clean w = Raised w1.
Proof.
  intros Hes Hcats Hcpre Hps Hports Hpre Hp.
  pose proof (graph4port_raised _ _ _ Hp) as ->.
  unfold graph4allports. rewrite Hes, Hcats, for_cats_app, Hcpre.
  simpl. rewrite Hps, Hports, for_ports_app, Hpre.
  simpl. rewrite Hp. reflexivity.
Qed.

End BatchFacts.

Lemma batch_stops_at_first_failure_witness :
  tree_graph4allports [] = Raised [].
Proof.
  apply (batch_stops_at_first_failure no_deps (fun _ => true) tree_render_ok
           tree_scandir 2 "/usr/ports" None false false (-1) None None
           true false false true
           [mkDirEntry "devel" "/usr/ports/devel" true;
            mkDirEntry "Mk" "/usr/ports/Mk" true;
            mkDirEntry "README" "/usr/ports/README" false]
           [] (mkDirEntry "devel" "/usr/ports/devel" true) []
           [mkDirEntry "a" "/usr/ports/devel/a" true;
            mkDirEntry "b" "/usr/ports/devel/b" true]
           [] (mkDirEntry "a" "/usr/ports/devel/a" true)
           [mkDirEntry "b" "/usr/ports/devel/b" true]
           [] [] [] []);
    vm_compute; reflexivity.
Defined.

(** C7 as stated fails: the first port fails, the second would succeed and
    is not processed. *)
Lemma batch_aborts_on_failure :
  tree_graph4port "devel/a" [] = Raised [] /\
  (exists g, tree_graph4port "devel/b" [] = Returned [("devel/b", g, true)]) /\
  tree_graph4allports [] = Raised [].
Proof.
  split; [vm_compute; reflexivity|].
  split; [eexists; vm_compute; reflexivity|].
  vm_compute. reflexivity.
Qed.

(** * Further properties *)

(** ** Paths and their last two components *)

Lemma split_app_sep (c : ascii) (x y : string) :
  Py.split c (x ++ String c y)%string = Py.split c x ++ Py.split c y.
Proof.
  induction x as [|a r IH]; simpl.
  - now rewrite Ascii.eqb_refl.
  - rewrite IH. pose proof (split_not_nil c r) as Hne.
    destruct (Ascii.eqb a c); [reflexivity|].
    destruct (Py.split c r) as [|h t]; [congruence | reflexivity].
Qed.

Lemma split_components (c : ascii) (s : string) :
  Forall (fun p => count_char c p = 0) (Py.split c s).
Proof.
  induction s as [|a r IH]; simpl.
  - repeat constructor.
  - destruct (Ascii.eqb a c) eqn:E.
    + constructor; [reflexivity | exact IH].
    + destruct (Py.split c r) as [|h t]; inversion IH; subst;
        constructor; simpl; try rewrite E; auto.
Qed.

Lemma split_join (c : ascii) (l : list string) :
  l <> [] -> Forall (fun p => count_char c p = 0) l ->
  Py.split c (Py.join c l) = l.
Proof.
  unfold Py.join. induction l as [|x l IH]; intros Hne Hall; [congruence|].
  inversion Hall as [|? ? Hx Hl]; subst.
  destruct l as [|y l].
  - simpl. now apply split_nosep.
  - change (String.concat (String c "") (x :: y :: l))
      with (x ++ String c (String.concat (String c "") (y :: l)))%string.
    rewrite split_app_sep, (split_nosep c x Hx), IH by (auto; discriminate).
    reflexivity.
Qed.

Lemma last_two_length {A : Type} (l : list A) :
  List.length (Py.last_two l) = Nat.min 2 (List.length l).
Proof. unfold Py.last_two. rewrite length_skipn. lia. Qed.

Lemma last_two_short {A : Type} (l : list A) :
  List.length l <= 2 -> Py.last_two l = l.
Proof.
  intros H. unfold Py.last_two.
  replace (List.length l - 2) with 0 by lia. reflexivity.
Qed.

Lemma last_two_app2 {A : Type} (l : list A) (a b : A) :
  Py.last_two (l ++ [a; b]) = [a; b].
Proof.
  unfold Py.last_two. rewrite length_app. simpl.
  replace (List.length l + 2 - 2) with (List.length l) by lia.
  rewrite skipn_app, skipn_all, Nat.sub_diag. reflexivity.
Qed.

Lemma Forall_skipn {A : Type} (P : A -> Prop) (n : nat) (l : list A) :
  Forall P l -> Forall P (skipn n l).
Proof.
  revert l. induction n as [|n IH]; intros l H; simpl; [exact H|].
  destruct l as [|a l]; [constructor|]. inversion H; subst. now apply IH.
Qed.

(** X1. The last two components of a path whose last two components are
    a category and a name are that category and that name, whatever
    precedes them. *)
Theorem fullname2port_category_name (base cat nm : string) :
  count_char "/"%char cat = 0 -> count_char "/"%char nm = 0 ->
  _fullname2port (base ++ "/" ++ cat ++ "/" ++ nm)%string
  = (cat ++ "/" ++ nm)%string.
Proof.
  intros Hc Hn. unfold _fullname2port.
  change (base ++ "/" ++ cat ++ "/" ++ nm)%string
    with (base ++ String Py.sep (cat ++ String Py.sep nm))%string.
  rewrite !split_app_sep, (split_nosep Py.sep cat Hc),
    (split_nosep Py.sep nm Hn).
  change ([cat] ++ [nm]) with [cat; nm]. rewrite last_two_app2.
  reflexivity.
Qed.

Lemma fullname2port_category_name_witness :
  count_char "/"%char "editors" = 0 /\ count_char "/"%char "vim@py" = 0 /\
  _fullname2port ("/usr/ports" ++ "/" ++ "editors" ++ "/" ++ "vim@py")%string
  = ("editors" ++ "/" ++ "vim@py")%string.
Proof.
  split; [reflexivity|]. split; [reflexivity|].
  apply (fullname2port_category_name "/usr/ports" "editors" "vim@py");
    reflexivity.
Defined.

(** X2. [_fullname2port] is idempotent. *)
Theorem fullname2port_idempotent (x : string) :
  _fullname2port (_fullname2port x) = _fullname2port x.
Proof.
  unfold _fullname2port.
  assert (Hne : Py.last_two (Py.split Py.sep x) <> []).
  { intros H. apply (f_equal (@List.length string)) in H.
    rewrite last_two_length in H. simpl in H.
    pose proof (split_not_nil Py.sep x) as Hx.
    destruct (Py.split Py.sep x); [congruence | simpl in H; lia]. }
  rewrite split_join.
  - rewrite last_two_short; [reflexivity|].
    rewrite last_two_length. lia.
  - exact Hne.
  - apply Forall_skipn, split_components.
Qed.

Lemma count_char_app (c : ascii) (a b : string) :
  count_char c (a ++ b)%string = count_char c a + count_char c b.
Proof. induction a as [|x a IH]; simpl; [reflexivity | rewrite IH; lia]. Qed.

(** X3. The result of [_fullname2port] holds at most one separator. *)
Theorem fullname2port_one_separator (x : string) :
  count_char "/"%char (_fullname2port x) <= 1.
Proof.
  unfold _fullname2port.
  pose proof (split_components Py.sep x) as Hall.
  apply (Forall_skipn _ (List.length (Py.split Py.sep x) - 2)) in Hall.
  fold (Py.last_two (Py.split Py.sep x)) in Hall.
  pose proof (last_two_length (Py.split Py.sep x)) as Hlen.
  destruct (Py.last_two (Py.split Py.sep x)) as [|a [|b [|c l]]];
    cbn [List.length] in Hlen; try lia.
  - simpl. lia.
  - inversion Hall; subst. unfold Py.join. simpl. fold Py.sep. lia.
  - inversion Hall as [|? ? Ha Hb]; subst. inversion Hb as [|? ? Hb' _]; subst.
    change (Py.join Py.sep [a; b]) with (a ++ String Py.sep b)%string.
    rewrite count_char_app. simpl. unfold Py.sep in *. simpl. lia.
Qed.

(** ** The flavor suffix *)

Lemma last_index_none_count (c : ascii) (s : string) :
  last_index c s = None -> count_char c s = 0.
Proof.
  induction s as [|a r IH]; simpl; [reflexivity|].
  destruct (last_index c r); [discriminate|].
  destruct (Ascii.eqb a c); [discriminate|]. intros _. now apply IH.
Qed.

Lemma last_index_cut (c : ascii) (s : string) (k : nat) :
  last_index c s = Some k ->
  exists f, count_char c f = 0 /\
            s = (String.substring 0 k s ++ String c f)%string.
Proof.
  revert k. induction s as [|a r IH]; simpl; intros k H; [discriminate|].
  destruct (last_index c r) as [k'|] eqn:E.
  - injection H as <-. destruct (IH k' eq_refl) as [f [Hf Hr]].
    exists f. split; [exact Hf|]. simpl. now rewrite <- Hr.
  - destruct (Ascii.eqb a c) eqn:Ea; [|discriminate].
    injection H as <-. apply Ascii.eqb_eq in Ea. subst a.
    exists r. split; [now apply last_index_none_count | reflexivity].
Qed.

(** X4. [_flavorname2port] removes exactly the last [@] and what follows
    it: a name without [@] is returned as it is, and any other name is the
    result followed by [@] and a suffix without [@]. *)
Theorem flavorname2port_cuts_last_flavor (x : string) :
  (count_char "@"%char x = 0 /\ _flavorname2port x = x) \/
  (exists f, count_char "@"%char f = 0 /\
             x = (_flavorname2port x ++ "@" ++ f)%string).
Proof.
  rewrite flavorname2port_last_index.
  destruct (last_index "@"%char x) as [k|] eqn:E.
  - right. destruct (last_index_cut _ _ _ E) as [f [Hf Hx]].
    exists f. split; [exact Hf | exact Hx].
  - left. split; [now apply last_index_none_count | reflexivity].
Qed.

(** X5. For a shown port with a flavor, when a URL is requested,
    [_add_node] appends one node whose name keeps the flavor and whose
    link is built from the name without it. *)
Theorem add_node_links_unflavored_port popen self x f st :
  count_char "/"%char f = 0 -> count_char "@"%char f = 0 ->
  url self = true ->
  shown self (_fullname2port x ++ "@" ++ f)%string = true ->
  exists c sty,
    body (graph (_add_node popen self (x ++ "@" ++ f)%string st))
    = body (graph st)
      ++ [Node (_fullname2port x ++ "@" ++ f)%string
               (Some (www self ++ _fullname2port x ++ suffix self)%string)
               c sty].
Proof.
  intros Hs Ha Hu Hsh. rewrite add_node_eq. cbv zeta.
  rewrite (fullname2port_keeps_flavor x f Hs), Hsh.
  unfold node_url. rewrite Hu, (flavorname2port_strips x f Ha).
  eexists. eexists. destruct (abandoned self); reflexivity.
Qed.

Lemma add_node_links_unflavored_port_witness :
  exists c sty,
    body (graph (_add_node flavored_popen
                   (mkPortgraph "/usr/ports" (Some "py") false false (-1) true
                                "https://www.freshports.org/" ".svg"
                                "ports-mgmt/pkg" true false false)
                   ("/usr/ports/editors/vim" ++ "@" ++ "py")%string
                   (snd flavored_init)))
    = body (graph (snd flavored_init))
      ++ [Node (_fullname2port "/usr/ports/editors/vim" ++ "@" ++ "py")%string
               (Some ("https://www.freshports.org/"
                      ++ _fullname2port "/usr/ports/editors/vim"
                      ++ ".svg")%string)
               c sty].
Proof.
  apply (add_node_links_unflavored_port flavored_popen
           (mkPortgraph "/usr/ports" (Some "py") false false (-1) true
                        "https://www.freshports.org/" ".svg"
                        "ports-mgmt/pkg" true false false)
           "/usr/ports/editors/vim" "py" (snd flavored_init));
    reflexivity.
Defined.

(** ** The shape of a call *)

Lemma recurseports_S popen self fuel ports fl da mr st :
  _recurseports popen self (S fuel) ports fl da mr st =
  if (mr =? 0)%Z then Some st
  else read_deps popen self (_recurseports popen self fuel) ports fl da mr
                 (popen (depends_argv (_flavorname2port ports) (fst da) fl))
                 (enter popen self ports fl da st).
Proof. reflexivity. Qed.

Lemma read_deps_cons popen self recurse ports fl da mr line rest st :
  line <> "" ->
  read_deps popen self recurse ports fl da mr (line :: rest) st =
  if Py.mem (Py.rstrip line) (all_ports st ++ [ports])
  then read_deps popen self recurse ports fl da mr rest
                 (record_edge self ports (Py.rstrip line) (snd da) st)
  else match recurse (Py.rstrip line) fl da (mr - 1)%Z
                     (descend popen self ports (Py.rstrip line) da st) with
       | Some st' => read_deps popen self recurse ports fl da mr rest st'
       | None => None
       end.
Proof.
  intros Hl. simpl. apply String.eqb_neq in Hl. rewrite Hl.
  fold (record_edge self ports (Py.rstrip line) (snd da) st).
  rewrite record_edge_all_ports. reflexivity.
Qed.

Lemma read_deps_stop popen self recurse ports fl da mr rest st :
  read_deps popen self recurse ports fl da mr ("" :: rest) st = Some st.
Proof. reflexivity. Qed.

Lemma enter_grows popen self ports fl da st :
  grows st (enter popen self ports fl da st).
Proof.
  unfold enter. eapply grows_trans; [|apply grows_spawn].
  eapply grows_trans; [|apply grows_add_node].
  destruct (verbose self); [apply grows_print | apply grows_refl].
Qed.

Lemma record_edge_grows self ports d c st :
  grows st (record_edge self ports d c st).
Proof.
  unfold record_edge. destruct (shown self _).
  - eapply grows_trans; [apply grows_visit | apply grows_emit].
  - apply grows_visit.
Qed.

Lemma descend_grows popen self ports d da st :
  grows st (descend popen self ports d da st).
Proof.
  unfold descend. eapply grows_trans; [apply record_edge_grows|].
  eapply grows_trans; [apply grows_add_node | apply grows_visit].
Qed.

(** ** A second invariant principle, with a loop invariant *)

Section Protocol.

Variable popen : list string -> list string.
Variable self : Portgraph.
Variable fl : option string.
Variable da : string * string.
Variable P : state -> Prop.
Variable L : string -> state -> Prop.

Hypothesis H_enter :
  forall ports st, P st -> L ports (enter popen self ports fl da st).
Hypothesis H_seen :
  forall ports d st,
    L ports st -> In d (all_ports st ++ [ports]) ->
    L ports (record_edge self ports d (snd da) st).
Hypothesis H_call :
  forall ports d st,
    L ports st -> ~ In d (all_ports st ++ [ports]) ->
    P (descend popen self ports d da st).
Hypothesis H_ret :
  forall ports d st st',
    L ports st -> ~ In d (all_ports st ++ [ports]) ->
    grows (descend popen self ports d da st) st' -> P st' -> L ports st'.
Hypothesis H_exit : forall ports st, L ports st -> P st.

Lemma read_deps_protocol fuel ports mr :
  (forall x mr' st st',
      P st -> _recurseports popen self fuel x fl da mr' st = Some st' ->
      P st') ->
  forall out st st',
    L ports st ->
    read_deps popen self (_recurseports popen self fuel) ports fl da mr out st
    = Some st' ->
    L ports st'.
Proof.
  intros Hrec out. induction out as [|line rest IH]; intros st st' HL H.
  - simpl in H. now injection H as <-.
  - destruct (String.eqb line "") eqn:El.
    + apply String.eqb_eq in El. subst line. rewrite read_deps_stop in H.
      now injection H as <-.
    + apply String.eqb_neq in El. rewrite read_deps_cons in H by exact El.
      destruct (Py.mem _ _) eqn:Em.
      * apply mem_In in Em. eapply IH; [|exact H]. now apply H_seen.
      * apply mem_false in Em.
        destruct (_recurseports _ _ _ _ _ _ _ _) as [st5|] eqn:E5;
          [|discriminate].
        eapply IH; [|exact H].
        eapply H_ret; [exact HL | exact Em | |].
        -- eapply recurseports_grows. exact E5.
        -- eapply Hrec; [|exact E5]. now apply H_call.
Qed.

Lemma recurseports_protocol fuel :
  forall ports mr st st',
    P st -> _recurseports popen self fuel ports fl da mr st = Some st' ->
    P st'.
Proof.
  induction fuel as [|fuel IH]; intros ports mr st st' HP H; [discriminate|].
  rewrite recurseports_S in H. destruct (mr =? 0)%Z.
  - now injection H as <-.
  - apply (H_exit ports).
    eapply read_deps_protocol; [exact IH | | exact H].
    now apply H_enter.
Qed.

End Protocol.

(** ** What each step writes *)

Lemma add_node_stdout popen self ports st :
  stdout (_add_node popen self ports st) = stdout st.
Proof.
  rewrite add_node_eq. cbv zeta.
  destruct (shown self _), (abandoned self); reflexivity.
Qed.

Lemma add_node_body_in popen self x st s :
  In s (body (graph (_add_node popen self x st))) ->
  In s (body (graph st)) \/
  (shown self (_fullname2port x) = true /\
   s = Node (_fullname2port x) (node_url self x)
            (fst (node_style popen self x)) (snd (node_style popen self x))).
Proof.
  rewrite add_node_eq. cbv zeta.
  destruct (shown self (_fullname2port x)), (abandoned self); simpl; auto;
    intros H; apply in_app_or in H; destruct H as [H|[<-|[]]]; auto.
Qed.

Lemma add_node_body_shown popen self x st :
  shown self (_fullname2port x) = true ->
  In (Node (_fullname2port x) (node_url self x)
           (fst (node_style popen self x)) (snd (node_style popen self x)))
     (body (graph (_add_node popen self x st))).
Proof.
  intros Hs. rewrite add_node_eq. cbv zeta. rewrite Hs.
  destruct (abandoned self); simpl; apply in_or_app; right; now left.
Qed.

Lemma add_node_procs_in popen self x st a :
  In a (procs (_add_node popen self x st)) ->
  In a (procs st) \/
  (abandoned self = true /\ a = maintainer_argv (_flavorname2port x)).
Proof.
  rewrite add_node_eq. cbv zeta.
  destruct (shown self (_fullname2port x)), (abandoned self); simpl; auto;
    intros H; apply in_app_or in H; destruct H as [H|[<-|[]]]; auto.
Qed.

Lemma record_edge_body_in self ports d c st s :
  In s (body (graph (record_edge self ports d c st))) ->
  In s (body (graph st)) \/
  (shown self (_fullname2port d) = true /\
   s = Edge (_fullname2port ports) (_fullname2port d) c).
Proof.
  unfold record_edge. destruct (shown self (_fullname2port d)); simpl; auto.
  intros H. apply in_app_or in H. destruct H as [H|[<-|[]]]; auto.
Qed.

Lemma record_edge_stdout self ports d c st :
  stdout (record_edge self ports d c st) = stdout st.
Proof. unfold record_edge. destruct (shown self _); reflexivity. Qed.

Lemma record_edge_expansions self ports d c st :
  expansions (record_edge self ports d c st) = expansions st.
Proof. unfold record_edge. destruct (shown self _); reflexivity. Qed.

Lemma enter_body_in popen self ports fl da st s :
  In s (body (graph (enter popen self ports fl da st))) ->
  In s (body (graph st)) \/
  (shown self (_fullname2port ports) = true /\
   s = Node (_fullname2port ports) (node_url self ports)
            (fst (node_style popen self ports))
            (snd (node_style popen self ports))).
Proof.
  unfold enter. simpl. intros H. apply add_node_body_in in H.
  destruct (verbose self); exact H.
Qed.

Lemma enter_procs_in popen self ports fl da st a :
  In a (procs (enter popen self ports fl da st)) ->
  In a (procs st) \/
  (abandoned self = true /\ a = maintainer_argv (_flavorname2port ports)) \/
  a = depends_argv (_flavorname2port ports) (fst da) fl.
Proof.
  unfold enter. simpl. intros H. apply in_app_or in H.
  destruct H as [H|[<-|[]]]; auto.
  apply add_node_procs_in in H. destruct (verbose self); tauto.
Qed.

Lemma descend_body_in popen self ports d da st s :
  In s (body (graph (descend popen self ports d da st))) ->
  In s (body (graph st)) \/
  (shown self (_fullname2port d) = true /\
   (s = Edge (_fullname2port ports) (_fullname2port d) (snd da) \/
    s = Node (_fullname2port d) (node_url self d)
             (fst (node_style popen self d)) (snd (node_style popen self d)))).
Proof.
  unfold descend. simpl. intros H. apply add_node_body_in in H.
  destruct H as [H|[Hs ->]]; [|now auto].
  apply record_edge_body_in in H. destruct H as [H|[Hs ->]]; auto.
Qed.

Lemma descend_procs_in popen self ports d da st a :
  In a (procs (descend popen self ports d da st)) ->
  In a (procs st) \/
  (abandoned self = true /\ a = maintainer_argv (_flavorname2port d)).
Proof.
  unfold descend. simpl. intros H. apply add_node_procs_in in H.
  now rewrite record_edge_procs in H.
Qed.

(** ** The ports [_add_node] ran on *)

Lemma node_style_styled popen self x :
  Node (_fullname2port x) (node_url self x)
       (fst (node_style popen self x)) (snd (node_style popen self x))
  = styled_node self x (maintainer_of popen x).
Proof.
  unfold node_style, styled_node, maintainer_of.
  destruct (abandoned self); [|reflexivity]. simpl.
  destruct (String.eqb _ "ports@FreeBSD.org"); reflexivity.
Qed.

Lemma depends_argv_maintainer_call portname kind fl :
  is_maintainer_call (depends_argv portname kind fl) = false.
Proof.
  unfold is_maintainer_call. apply String.eqb_neq.
  apply depends_argv_not_maintainer.
Qed.

Section Log.

Variable popen : list string -> list string.
Variable self : Portgraph.
Variable st0 : state.

Lemma log_refl : add_node_log popen self st0 [] st0.
Proof.
  unfold add_node_log. simpl. rewrite !app_nil_r.
  destruct (abandoned self); rewrite ?app_nil_r; auto.
Qed.

Lemma log_same c s s' :
  filter is_node (body (graph s')) = filter is_node (body (graph s)) ->
  filter is_maintainer_call (procs s') = filter is_maintainer_call (procs s) ->
  incl (all_ports s') (all_ports s) ->
  add_node_log popen self st0 c s -> add_node_log popen self st0 c s'.
Proof.
  intros Hb Hp Ha [Hn [Hm Hv]]. unfold add_node_log.
  rewrite Hb, Hp. repeat split; auto.
Qed.

Lemma log_print c x s :
  add_node_log popen self st0 c s -> add_node_log popen self st0 c (print x s).
Proof. apply log_same; try reflexivity. apply incl_refl. Qed.

Lemma log_set_port c p s :
  add_node_log popen self st0 c s ->
  add_node_log popen self st0 c (set_port p s).
Proof. apply log_same; try reflexivity. apply incl_refl. Qed.

Lemma log_spawn_depends c portname kind fl s :
  add_node_log popen self st0 c s ->
  add_node_log popen self st0 c (spawn (depends_argv portname kind fl) s).
Proof.
  apply log_same; try reflexivity; [|apply incl_refl].
  simpl. rewrite filter_app. simpl.
  rewrite depends_argv_maintainer_call. apply app_nil_r.
Qed.

Lemma log_visit c x s :
  In x c ->
  add_node_log popen self st0 c s -> add_node_log popen self st0 c (visit x s).
Proof.
  intros Hx [Hn [Hm Hv]]. repeat split; auto.
  intros y Hy. simpl in Hy. apply in_app_or in Hy.
  destruct Hy as [Hy|[<-|[]]]; auto.
Qed.

Lemma log_record_edge c ports d color s :
  In ports c ->
  add_node_log popen self st0 c s ->
  add_node_log popen self st0 c (record_edge self ports d color s).
Proof.
  intros Hx H. apply (log_visit c ports s Hx) in H.
  unfold record_edge. destruct (shown self _); [|exact H].
  revert H. apply log_same; try reflexivity; [|apply incl_refl].
  simpl. rewrite filter_app. apply app_nil_r.
Qed.

Lemma log_add_node c x s :
  add_node_log popen self st0 c s ->
  add_node_log popen self st0 (c ++ [x]) (_add_node popen self x s).
Proof.
  intros [Hn [Hm Hv]]. unfold add_node_log.
  rewrite add_node_all_ports. split; [|split].
  - assert (Hb : body (graph (_add_node popen self x s)) =
                 body (graph s)
                 ++ (if shown self (_fullname2port x)
                     then [styled_node self x (maintainer_of popen x)]
                     else [])).
    { rewrite add_node_eq. cbv zeta. rewrite node_style_styled.
      destruct (shown self _), (abandoned self); simpl;
        now rewrite ?app_nil_r. }
    rewrite Hb, !filter_app, map_app, Hn, <- app_assoc. f_equal. f_equal.
    simpl. destruct (shown self (_fullname2port x)); [|reflexivity].
    simpl. unfold styled_node. destruct (_ && _); reflexivity.
  - rewrite add_node_eq. cbv zeta.
    destruct (abandoned self), (shown self (_fullname2port x)); simpl;
      rewrite ?filter_app, ?map_app; simpl; rewrite ?Hm, ?app_nil_r;
      try reflexivity; now rewrite <- app_assoc.
  - intros y Hy. destruct (Hv y Hy) as [H|H]; auto.
    right. apply in_or_app. now left.
Qed.

Variable root : string.

Lemma read_deps_log fuel ports fl da mr :
  (forall x mr' s s' c,
      port_name popen root x -> add_node_log popen self st0 c s ->
      _recurseports popen self fuel x fl da mr' s = Some s' ->
      exists ext,
        Forall (port_name popen root) ext /\
        add_node_log popen self st0 (c ++ ext) s') ->
  forall out s s' c,
    (forall line, In line out -> port_name popen root (Py.rstrip line)) ->
    In ports c ->
    add_node_log popen self st0 c s ->
    read_deps popen self (_recurseports popen self fuel) ports fl da mr out s
    = Some s' ->
    exists ext,
      Forall (port_name popen root) ext /\
      add_node_log popen self st0 (c ++ ext) s'.
Proof.
  intros Hrec out. induction out as [|line rest IH]; intros s s' c Hout Hp HL H.
  - simpl in H. injection H as <-. exists []. rewrite app_nil_r. now split.
  - destruct (String.eqb line "") eqn:El.
    + apply String.eqb_eq in El. subst line. rewrite read_deps_stop in H.
      injection H as <-. exists []. rewrite app_nil_r. now split.
    + apply String.eqb_neq in El. rewrite read_deps_cons in H by exact El.
      assert (Hrest : forall l, In l rest -> port_name popen root (Py.rstrip l))
        by (intros l Hl; apply Hout; now right).
      destruct (Py.mem _ _).
      * eapply IH; [exact Hrest | exact Hp | | exact H].
        now apply log_record_edge.
      * destruct (_recurseports _ _ _ _ _ _ _ _) as [s5|] eqn:E5;
          [|discriminate].
        assert (HL1 : add_node_log popen self st0 (c ++ [Py.rstrip line])
                        (descend popen self ports (Py.rstrip line) da s)).
        { unfold descend. apply log_visit; [apply in_or_app; right; now left|].
          apply log_add_node. now apply log_record_edge. }
        destruct (Hrec _ _ _ _ _ (Hout line (or_introl eq_refl)) HL1 E5)
          as [ext1 [Hf1 HL5]].
        assert (Hp5 : In ports ((c ++ [Py.rstrip line]) ++ ext1))
          by (apply in_or_app; left; apply in_or_app; now left).
        destruct (IH _ _ _ Hrest Hp5 HL5 H) as [ext2 [Hf2 HL']].
        exists ([Py.rstrip line] ++ ext1 ++ ext2). split.
        -- apply Forall_app. split.
           ++ constructor; [|constructor]. apply Hout. now left.
           ++ apply Forall_app. now split.
        -- now rewrite !app_assoc in *.
Qed.

Lemma recurseports_log fuel :
  forall ports fl da mr s s' c,
    port_name popen root ports ->
    add_node_log popen self st0 c s ->
    _recurseports popen self fuel ports fl da mr s = Some s' ->
    exists ext,
      Forall (port_name popen root) ext /\
      add_node_log popen self st0 (c ++ ext) s' /\
      (mr <> 0%Z -> In ports ext).
Proof.
  induction fuel as [|fuel IH]; intros ports fl da mr s s' c Hn HL H;
    [discriminate|].
  rewrite recurseports_S in H. destruct (mr =? 0)%Z eqn:Emr.
  - injection H as <-. exists []. rewrite app_nil_r.
    apply Z.eqb_eq in Emr. split; [constructor|]. split; [exact HL|].
    intros Hne. contradiction.
  - assert (HL1 : add_node_log popen self st0 (c ++ [ports])
                    (enter popen self ports fl da s)).
    { unfold enter. apply log_spawn_depends, log_add_node.
      destruct (verbose self); [apply log_print|]; exact HL. }
    destruct (read_deps_log fuel ports fl da mr) with (4 := HL1) (5 := H)
      as [ext [Hf HL']].
    + intros x mr' t t' c' Hx Ht Et.
      destruct (IH _ _ _ _ _ _ _ Hx Ht Et) as [e [He [Hl _]]]. now exists e.
    + intros line Hl. right. now exists
        (depends_argv (_flavorname2port ports) (fst da) fl), line.
    + apply in_or_app. right. now left.
    + exists ([ports] ++ ext). split; [|split].
      * apply Forall_app. split; [|exact Hf]. now constructor.
      * now rewrite app_assoc.
      * intros _. now left.
Qed.

End Log.

Lemma build_graph_log popen self fuel st st' :
  build_graph popen self fuel st = Some st' ->
  exists calls,
    Forall (port_name popen (root_port self st)) calls /\
    (build self || run self = true -> recursion self <> 0%Z ->
     In (root_port self st) calls) /\
    add_node_log popen self st calls st'.
Proof.
  intros H. rewrite build_graph_unfold in H.
  assert (H0 : add_node_log popen self st [] (append_flavor self st)).
  { unfold append_flavor. destruct (Py.truthy (flavor self));
      [apply log_set_port|]; apply log_refl. }
  assert (Hroot : port_name popen (root_port self st) (root_port self st))
    by now left.
  destruct (build self).
  - destruct (_recurseports _ _ _ _ _ build_args _ _) as [st1|] eqn:E1;
      [|discriminate].
    destruct (recurseports_log popen self st (root_port self st) fuel
                _ _ _ _ _ _ _ Hroot H0 E1) as [e1 [Hf1 [HL1 Hr1]]].
    simpl in HL1. destruct (run self).
    + destruct (recurseports_log popen self st (root_port self st) fuel
                  _ _ _ _ _ _ _ Hroot HL1 H) as [e2 [Hf2 [HL2 Hr2]]].
      exists (e1 ++ e2). split; [|split]; auto.
      * apply Forall_app. now split.
      * intros _ Hmr. apply in_or_app. left. now apply Hr1.
    + injection H as <-. exists e1. split; [|split]; auto.
  - destruct (run self).
    + destruct (recurseports_log popen self st (root_port self st) fuel
                  _ _ _ _ _ _ _ Hroot H0 H) as [e2 [Hf2 [HL2 Hr2]]].
      simpl in HL2. exists e2. split; [|split]; auto.
    + injection H as <-. exists []. split; [constructor|].
      split; [discriminate|exact H0].
Qed.

(** C8. [build_graph] runs [_add_node] on a list [calls] of names it met
    (the root, when a pass runs with a depth budget that is not zero, and
    every name that enters the visited list are among them), and the node
    statements it writes are, in order, those of the shown names of
    [calls]: red and bold when the maintainer check is enabled and the
    maintainer the build tool reports for the port is ports@FreeBSD.org,
    black and filled otherwise. With the check enabled the maintainer
    processes started are those of [calls], one each; with the check
    disabled none is started and every node is black and filled. *)
Theorem node_style_follows_maintainer popen self fuel st st' :
  build_graph popen self fuel st = Some st' ->
  exists calls,
    Forall (port_name popen (root_port self st)) calls /\
    (build self || run self = true -> recursion self <> 0%Z ->
     In (root_port self st) calls) /\
    (forall x, In x (all_ports st') -> In x (all_ports st) \/ In x calls) /\
    filter is_node (body (graph st')) =
    filter is_node (body (graph st))
    ++ map (fun x => styled_node self x (maintainer_of popen x))
           (filter (fun x => shown self (_fullname2port x)) calls) /\
    filter is_maintainer_call (procs st') =
    filter is_maintainer_call (procs st)
    ++ (if abandoned self
        then map (fun x => maintainer_argv (_flavorname2port x)) calls
        else []).
Proof.
  intros H. destruct (build_graph_log popen self fuel st st' H)
    as [calls [Hf [Hr [Hn [Hm Hv]]]]].
  exists calls. repeat split; assumption.
Qed.

Lemma node_style_follows_maintainer_witness :
  (build_graph orphan_popen (fst orphan_init) 3 (snd orphan_init)
   = Some orphan_final /\
   In (Node "editors/foo" None "black" "filled") (body (graph orphan_final)) /\
   In (Node "devel/bar" None "red" "bold") (body (graph orphan_final))) /\
  exists calls,
    Forall (port_name orphan_popen
              (root_port (fst orphan_init) (snd orphan_init))) calls /\
    (build (fst orphan_init) || run (fst orphan_init) = true ->
     recursion (fst orphan_init) <> 0%Z ->
     In (root_port (fst orphan_init) (snd orphan_init)) calls) /\
    (forall x, In x (all_ports orphan_final) ->
               In x (all_ports (snd orphan_init)) \/ In x calls) /\
    filter is_node (body (graph orphan_final)) =
    filter is_node (body (graph (snd orphan_init)))
    ++ map (fun x => styled_node (fst orphan_init) x
                                 (maintainer_of orphan_popen x))
           (filter (fun x => shown (fst orphan_init) (_fullname2port x))
                   calls) /\
    filter is_maintainer_call (procs orphan_final) =
    filter is_maintainer_call (procs (snd orphan_init))
    ++ (if abandoned (fst orphan_init)
        then map (fun x => maintainer_argv (_flavorname2port x)) calls
        else []).
Proof.
  split; [repeat split; vm_compute; tauto|].
  apply (node_style_follows_maintainer orphan_popen (fst orphan_init) 3
           (snd orphan_init) orphan_final).
  vm_compute. reflexivity.
Defined.

(** ** The root *)

Lemma recurseports_root_node popen self fuel ports fl da mr st st' :
  mr <> 0%Z ->
  shown self (_fullname2port ports) = true ->
  _recurseports popen self fuel ports fl da mr st = Some st' ->
  In (Node (_fullname2port ports) (node_url self ports)
           (fst (node_style popen self ports))
           (snd (node_style popen self ports)))
     (body (graph st')).
Proof.
  intros Hmr Hs H. destruct fuel as [|fuel]; [discriminate|].
  rewrite recurseports_S in H. apply Z.eqb_neq in Hmr. rewrite Hmr in H.
  apply read_deps_grows in H. destruct H as [[ext Hb] _]. rewrite Hb.
  apply in_or_app. left. unfold enter. simpl.
  now apply add_node_body_shown.
Qed.

Lemma build_graph_root popen self fuel st st' :
  build self || run self = true ->
  recursion self <> 0%Z ->
  shown self (_fullname2port (root_port self st)) = true ->
  build_graph popen self fuel st = Some st' ->
  In (Node (_fullname2port (root_port self st))
           (node_url self (root_port self st))
           (fst (node_style popen self (root_port self st)))
           (snd (node_style popen self (root_port self st))))
     (body (graph st')).
Proof.
  intros Hbr Hmr Hs H. rewrite build_graph_unfold in H.
  destruct (build self).
  - destruct (_recurseports _ _ _ _ _ build_args _ _) as [st1|] eqn:E1;
      [|discriminate].
    pose proof (recurseports_root_node _ _ _ _ _ _ _ _ _ Hmr Hs E1) as Hin.
    destruct (run self).
    + apply recurseports_grows in H. destruct H as [[ext Hb] _].
      rewrite Hb. apply in_or_app. now left.
    + now injection H as <-.
  - simpl in Hbr. rewrite Hbr in H.
    exact (recurseports_root_node _ _ _ _ _ _ _ _ _ Hmr Hs H).
Qed.

(** X6. When at least one pass is requested and the depth budget is not
    zero, the graph [build_graph] returns holds the node of the root, unless
    the root is the hidden package manager. *)
Theorem build_graph_root_node popen self fuel st st' :
  build self || run self = true ->
  recursion self <> 0%Z ->
  shown self (_fullname2port (root_port self st)) = true ->
  build_graph popen self fuel st = Some st' ->
  In (Node (_fullname2port (root_port self st))
           (node_url self (root_port self st))
           (fst (node_style popen self (root_port self st)))
           (snd (node_style popen self (root_port self st))))
     (body (graph st')).
Proof. apply build_graph_root. Qed.

Lemma build_graph_root_node_witness :
  In (Node (_fullname2port (root_port (fst orphan_init) (snd orphan_init)))
           (node_url (fst orphan_init)
                     (root_port (fst orphan_init) (snd orphan_init)))
           (fst (node_style orphan_popen (fst orphan_init)
                   (root_port (fst orphan_init) (snd orphan_init))))
           (snd (node_style orphan_popen (fst orphan_init)
                   (root_port (fst orphan_init) (snd orphan_init)))))
     (body (graph orphan_final)).
Proof.
  apply (build_graph_root_node orphan_popen (fst orphan_init) 3
           (snd orphan_init) orphan_final).
  - reflexivity.
  - vm_compute. discriminate.
  - reflexivity.
  - vm_compute. reflexivity.
Defined.

(** ** One pass: one colour, one target, one flavor *)

Lemma recurseports_pass popen self fuel ports fl da mr st st' :
  _recurseports popen self fuel ports fl da mr st = Some st' ->
  (forall t h c,
      In (Edge t h c) (body (graph st')) ->
      In (Edge t h c) (body (graph st)) \/ c = snd da)
  /\ (forall argv,
         In argv (procs st') ->
         In argv (procs st) \/
         (abandoned self = true /\ exists p, argv = maintainer_argv p) \/
         exists p, argv = depends_argv p (fst da) fl).
Proof.
  apply (recurseports_protocol popen self fl da
           (fun s =>
              (forall t h c,
                  In (Edge t h c) (body (graph s)) ->
                  In (Edge t h c) (body (graph st)) \/ c = snd da)
              /\ (forall argv,
                     In argv (procs s) ->
                     In argv (procs st) \/
                     (abandoned self = true /\
                      exists p, argv = maintainer_argv p) \/
                     exists p, argv = depends_argv p (fst da) fl))
           (fun _ s =>
              (forall t h c,
                  In (Edge t h c) (body (graph s)) ->
                  In (Edge t h c) (body (graph st)) \/ c = snd da)
              /\ (forall argv,
                     In argv (procs s) ->
                     In argv (procs st) \/
                     (abandoned self = true /\
                      exists p, argv = maintainer_argv p) \/
                     exists p, argv = depends_argv p (fst da) fl))).
  - intros x s [Hb Hp]. split.
    + intros t h c Hin. apply enter_body_in in Hin.
      destruct Hin as [Hin|[_ Hin]]; [auto | discriminate].
    + intros argv Hin. apply enter_procs_in in Hin.
      destruct Hin as [Hin|[[Ha ->]| ->]]; eauto.
  - intros x d s [Hb Hp] _. split.
    + intros t h c Hin. apply record_edge_body_in in Hin.
      destruct Hin as [Hin|[_ Hin]]; [auto|]. injection Hin as _ _ ->. now right.
    + intros argv Hin. rewrite record_edge_procs in Hin. auto.
  - intros x d s [Hb Hp] _. split.
    + intros t h c Hin. apply descend_body_in in Hin.
      destruct Hin as [Hin|[_ [Hin|Hin]]]; [auto | | discriminate].
      injection Hin as _ _ ->. now right.
    + intros argv Hin. apply descend_procs_in in Hin.
      destruct Hin as [Hin|[Ha ->]]; eauto.
  - intros x d s s' _ _ _ H. exact H.
  - intros x s H. exact H.
  - split; auto.
Qed.

(** X7. The edges [build_graph] writes have the colour of the build
    pass or of the run pass, each only if that pass is requested; the only
    processes it starts ask for the maintainer (with the maintainer check
    enabled) or for the dependency list of a requested pass, always with the
    flavor of the root. *)
Theorem build_graph_colours_and_targets popen self fuel st st' :
  build_graph popen self fuel st = Some st' ->
  (forall t h c,
      In (Edge t h c) (body (graph st')) ->
      In (Edge t h c) (body (graph st)) \/
      (build self = true /\ c = "#009999") \/
      (run self = true /\ c = "#990000"))
  /\ (forall argv,
         In argv (procs st') ->
         In argv (procs st) \/
         (abandoned self = true /\ exists p, argv = maintainer_argv p) \/
         (build self = true /\
          exists p, argv = depends_argv p "build" (flavor self)) \/
         (run self = true /\
          exists p, argv = depends_argv p "run" (flavor self))).
Proof.
  intros H. rewrite build_graph_unfold in H.
  assert (H0 : body (graph (append_flavor self st)) = body (graph st)
               /\ procs (append_flavor self st) = procs st)
    by (unfold append_flavor; destruct (Py.truthy (flavor self)); split;
        reflexivity).
  destruct H0 as [Hb0 Hp0].
  destruct (build self) eqn:Eb.
  - destruct (_recurseports _ _ _ _ _ build_args _ _) as [st1|] eqn:E1;
      [|discriminate].
    apply recurseports_pass in E1. destruct E1 as [Hb1 Hp1].
    rewrite Hb0 in Hb1. rewrite Hp0 in Hp1.
    destruct (run self) eqn:Er.
    + apply recurseports_pass in H. destruct H as [Hb2 Hp2]. split.
      * intros t h c Hin. destruct (Hb2 t h c Hin) as [Hin1|Hc]; [|now auto].
        destruct (Hb1 t h c Hin1) as [Hin0|Hc]; auto.
      * intros argv Hin.
        destruct (Hp2 argv Hin) as [Hin1|[Hm|Hd]]; [|now auto|now auto].
        destruct (Hp1 argv Hin1) as [Hin0|[Hm|Hd]]; auto.
    + injection H as <-. split.
      * intros t h c Hin. destruct (Hb1 t h c Hin); auto.
      * intros argv Hin. destruct (Hp1 argv Hin) as [?|[?|?]]; auto.
  - destruct (run self) eqn:Er.
    + apply recurseports_pass in H. destruct H as [Hb2 Hp2].
      rewrite Hb0 in Hb2. rewrite Hp0 in Hp2. split.
      * intros t h c Hin. destruct (Hb2 t h c Hin); auto.
      * intros argv Hin. destruct (Hp2 argv Hin) as [?|[?|?]]; auto.
    + injection H as <-. rewrite Hb0, Hp0. split; auto.
Qed.

Lemma build_graph_colours_and_targets_witness :
  (forall t h c,
      In (Edge t h c) (body (graph both_final)) ->
      In (Edge t h c) (body (graph (snd both_init))) \/
      (build (fst both_init) = true /\ c = "#009999") \/
      (run (fst both_init) = true /\ c = "#990000"))
  /\ (forall argv,
         In argv (procs both_final) ->
         In argv (procs (snd both_init)) \/
         (abandoned (fst both_init) = true /\
          exists p, argv = maintainer_argv p) \/
         (build (fst both_init) = true /\
          exists p, argv = depends_argv p "build" (flavor (fst both_init))) \/
         (run (fst both_init) = true /\
          exists p, argv = depends_argv p "run" (flavor (fst both_init)))).
Proof.
  apply (build_graph_colours_and_targets both_popen (fst both_init) 4
           (snd both_init) both_final).
  vm_compute. reflexivity.
Defined.

(** ** What is printed *)

Lemma recurseports_quiet popen self fuel ports fl da mr st st' :
  verbose self = false ->
  _recurseports popen self fuel ports fl da mr st = Some st' ->
  stdout st' = stdout st.
Proof.
  intros Hv.
  apply (recurseports_protocol popen self fl da
           (fun s => stdout s = stdout st) (fun _ s => stdout s = stdout st));
    auto.
  - intros x s H. unfold enter. simpl. now rewrite add_node_stdout, Hv.
  - intros x d s H _. now rewrite record_edge_stdout.
  - intros x d s H _. unfold descend. simpl.
    now rewrite add_node_stdout, record_edge_stdout.
Qed.

Lemma recurseports_verbose popen self fuel ports fl da mr st st' :
  verbose self = true ->
  _recurseports popen self fuel ports fl da mr st = Some st' ->
  List.length (stdout st') + expansions st
  = List.length (stdout st) + expansions st'.
Proof.
  intros Hv.
  apply (recurseports_protocol popen self fl da
           (fun s => List.length (stdout s) + expansions st
                     = List.length (stdout st) + expansions s)
           (fun _ s => List.length (stdout s) + expansions st
                       = List.length (stdout st) + expansions s));
    auto.
  - intros x s H. unfold enter.
    rewrite spawn_depends_expansions, add_node_expansions. simpl.
    rewrite add_node_stdout, Hv. simpl. rewrite length_app. simpl.
    unfold expansions in *. simpl. lia.
  - intros x d s H _.
    now rewrite record_edge_stdout, record_edge_expansions.
  - intros x d s H _. unfold descend.
    change (expansions (visit d ?s)) with (expansions s).
    simpl. rewrite add_node_stdout, record_edge_stdout.
    unfold expansions in *. simpl.
    fold (expansions (_add_node popen self d
                        (record_edge self x d (snd da) s))).
    rewrite add_node_expansions, record_edge_expansions. exact H.
Qed.

(** X8. With [verbose] set [build_graph] prints one line for each
    expansion; without it nothing is printed. *)
Theorem build_graph_prints_expansions popen self fuel st st' :
  build_graph popen self fuel st = Some st' ->
  if verbose self
  then List.length (stdout st') + expansions st
       = List.length (stdout st) + expansions st'
  else stdout st' = stdout st.
Proof.
  intros H. rewrite build_graph_unfold in H.
  assert (H0 : stdout (append_flavor self st) = stdout st
               /\ expansions (append_flavor self st) = expansions st)
    by (unfold append_flavor; destruct (Py.truthy (flavor self)); split;
        reflexivity).
  destruct H0 as [Hs0 He0].
  destruct (verbose self) eqn:Hv.
  - destruct (build self).
    + destruct (_recurseports _ _ _ _ _ build_args _ _) as [st1|] eqn:E1;
        [|discriminate].
      apply recurseports_verbose in E1; [|exact Hv].
      rewrite Hs0, He0 in E1.
      destruct (run self).
      * apply recurseports_verbose in H; [|exact Hv]. lia.
      * injection H as <-. exact E1.
    + destruct (run self).
      * apply recurseports_verbose in H; [|exact Hv].
        rewrite Hs0, He0 in H. exact H.
      * injection H as <-. rewrite Hs0, He0. reflexivity.
  - destruct (build self).
    + destruct (_recurseports _ _ _ _ _ build_args _ _) as [st1|] eqn:E1;
        [|discriminate].
      apply recurseports_quiet in E1; [|exact Hv]. rewrite Hs0 in E1.
      destruct (run self).
      * apply recurseports_quiet in H; [|exact Hv]. congruence.
      * injection H as <-. exact E1.
    + destruct (run self).
      * apply recurseports_quiet in H; [|exact Hv]. congruence.
      * injection H as <-. exact Hs0.
Qed.

Lemma build_graph_prints_expansions_witness :
  if verbose (fst chatty_init)
  then List.length (stdout chatty_final) + expansions (snd chatty_init)
       = List.length (stdout (snd chatty_init)) + expansions chatty_final
  else stdout chatty_final = stdout (snd chatty_init).
Proof.
  apply (build_graph_prints_expansions cyc_popen (fst chatty_init) 3
           (snd chatty_init) chatty_final).
  vm_compute. reflexivity.
Defined.

(** ** No edge without its nodes *)

Lemma has_node_grows n st st' : grows st st' -> has_node n st -> has_node n st'.
Proof.
  intros [[ext Hb] _] [u [c [sty H]]]. exists u, c, sty.
  rewrite Hb. apply in_or_app. now left.
Qed.

Lemma has_node_add_node popen self x st :
  shown self (_fullname2port x) = true ->
  has_node (_fullname2port x) (_add_node popen self x st).
Proof.
  intros Hs. eexists. eexists. eexists. now apply add_node_body_shown.
Qed.

Lemma shown_dec self t : shown self t = true \/ shown self t = false.
Proof. destruct (shown self t); auto. Qed.

Lemma recurseports_endpoints popen self fuel ports fl da mr st st' :
  endpoints_declared self st ->
  _recurseports popen self fuel ports fl da mr st = Some st' ->
  endpoints_declared self st'.
Proof.
  apply (recurseports_protocol popen self fl da
           (endpoints_declared self)
           (fun p s => endpoints_declared self s /\
                       (shown self (_fullname2port p) = true ->
                        has_node (_fullname2port p) s))).
  - (* entry *)
    intros x s [Hv He].
    pose proof (enter_grows popen self x fl da s) as Hg.
    split; [split|].
    + intros y Hy Hs. apply (has_node_grows _ _ _ Hg).
      apply Hv; [|exact Hs].
      unfold enter in Hy. simpl in Hy. rewrite add_node_all_ports in Hy.
      destruct (verbose self); exact Hy.
    + intros t h c Hin. apply enter_body_in in Hin.
      destruct Hin as [Hin|[_ Hin]]; [|discriminate].
      destruct (He t h c Hin) as [Hh Ht]. split.
      * exact (has_node_grows _ _ _ Hg Hh).
      * destruct Ht as [Ht|Ht]; [left; exact (has_node_grows _ _ _ Hg Ht)|].
        now right.
    + intros Hs. unfold enter.
      apply (has_node_grows _ _ _ (grows_spawn _ _)).
      now apply has_node_add_node.
  - (* a dependency already visited *)
    intros x d s [[Hv He] Hx] Hd.
    pose proof (record_edge_grows self x d (snd da) s) as Hg.
    assert (Hv' : forall y, In y (all_ports s ++ [x]) ->
                            shown self (_fullname2port y) = true ->
                            has_node (_fullname2port y) s).
    { intros y Hy Hs. apply in_app_or in Hy.
      destruct Hy as [Hy|[<-|[]]]; auto. }
    split; [split|].
    + intros y Hy Hs. rewrite record_edge_all_ports in Hy.
      exact (has_node_grows _ _ _ Hg (Hv' y Hy Hs)).
    + intros t h c Hin. apply record_edge_body_in in Hin.
      destruct Hin as [Hin|[Hs Hin]].
      * destruct (He t h c Hin) as [Hh Ht]. split.
        -- exact (has_node_grows _ _ _ Hg Hh).
        -- destruct Ht as [Ht|Ht];
             [left; exact (has_node_grows _ _ _ Hg Ht) | now right].
      * injection Hin as -> -> _. split.
        -- exact (has_node_grows _ _ _ Hg (Hv' d Hd Hs)).
        -- destruct (shown_dec self (_fullname2port x)) as [Hsx|Hsx];
             [left; exact (has_node_grows _ _ _ Hg (Hx Hsx)) | now right].
    + intros Hs. exact (has_node_grows _ _ _ Hg (Hx Hs)).
  - (* a new dependency: the state of the recursive call *)
    intros x d s [[Hv He] Hx] Hd.
    pose proof (descend_grows popen self x d da s) as Hg.
    assert (Hnd : shown self (_fullname2port d) = true ->
                  has_node (_fullname2port d) (descend popen self x d da s)).
    { intros Hs. unfold descend.
      apply (has_node_grows _ _ _ (grows_visit _ _)).
      now apply has_node_add_node. }
    split.
    + intros y Hy Hs. unfold descend in Hy. simpl in Hy.
      rewrite add_node_all_ports, record_edge_all_ports in Hy.
      apply in_app_or in Hy. destruct Hy as [Hy|[<-|[]]]; [|now auto].
      apply in_app_or in Hy. destruct Hy as [Hy|[<-|[]]].
      * exact (has_node_grows _ _ _ Hg (Hv y Hy Hs)).
      * exact (has_node_grows _ _ _ Hg (Hx Hs)).
    + intros t h c Hin. apply descend_body_in in Hin.
      destruct Hin as [Hin|[Hs [Hin|Hin]]]; [| |discriminate].
      * destruct (He t h c Hin) as [Hh Ht]. split.
        -- exact (has_node_grows _ _ _ Hg Hh).
        -- destruct Ht as [Ht|Ht];
             [left; exact (has_node_grows _ _ _ Hg Ht) | now right].
      * injection Hin as -> -> _. split; [now apply Hnd|].
        destruct (shown_dec self (_fullname2port x)) as [Hsx|Hsx];
          [left; exact (has_node_grows _ _ _ Hg (Hx Hsx)) | now right].
  - (* back from the recursive call *)
    intros x d s s' [_ Hx] _ Hg HP. split; [exact HP|].
    intros Hs. apply (has_node_grows _ _ _ Hg).
    exact (has_node_grows _ _ _ (descend_grows popen self x d da s) (Hx Hs)).
  - intros x s [H _]. exact H.
Qed.

(** X9. Starting from an empty visited list and a graph without edges,
    every edge [build_graph] writes has a node statement for its head, and
    one for its tail unless the tail is the hidden package manager. *)
Theorem build_graph_edges_have_nodes popen self fuel st st' :
  all_ports st = [] ->
  (forall t h c, ~ In (Edge t h c) (body (graph st))) ->
  build_graph popen self fuel st = Some st' ->
  forall t h c,
    In (Edge t h c) (body (graph st')) ->
    has_node h st' /\
    (has_node t st' \/ (t = pkg self /\ with_pkg self = false)).
Proof.
  intros Hap Hne H.
  assert (H0 : endpoints_declared self (append_flavor self st)).
  { unfold append_flavor. destruct (Py.truthy (flavor self)); split; simpl;
      try (rewrite Hap; intros x []);
      intros t h c Hin; destruct (Hne t h c Hin). }
  assert (H1 : endpoints_declared self st').
  { rewrite build_graph_unfold in H. destruct (build self).
    - destruct (_recurseports _ _ _ _ _ build_args _ _) as [st1|] eqn:E1;
        [|discriminate].
      apply (recurseports_endpoints _ _ _ _ _ _ _ _ _ H0) in E1.
      destruct (run self).
      + exact (recurseports_endpoints _ _ _ _ _ _ _ _ _ E1 H).
      + now injection H as <-.
    - destruct (run self).
      + exact (recurseports_endpoints _ _ _ _ _ _ _ _ _ H0 H).
      + now injection H as <-. }
  intros t h c Hin. destruct H1 as [_ He].
  destruct (He t h c Hin) as [Hh Ht]. split; [exact Hh|].
  destruct Ht as [Ht|Ht]; [now left | right].
  unfold shown in Ht. destruct (String.eqb t (pkg self)) eqn:E.
  - apply String.eqb_eq in E. simpl in Ht. now split.
  - discriminate.
Qed.

Lemma build_graph_edges_have_nodes_witness :
  all_ports (snd both_init) = [] /\
  forall t h c,
    In (Edge t h c) (body (graph both_final)) ->
    has_node h both_final /\
    (has_node t both_final \/
     (t = pkg (fst both_init) /\ with_pkg (fst both_init) = false)).
Proof.
  split; [reflexivity|].
  apply (build_graph_edges_have_nodes both_popen (fst both_init) 4
           (snd both_init) both_final).
  - reflexivity.
  - intros t h c H. vm_compute in H. destruct H as [H|[]]. discriminate.
  - vm_compute. reflexivity.
Defined.

(** ** The depth budget *)

Lemma read_deps_returns popen self recurse ports fl da mr :
  (forall x st, exists st', recurse x fl da (mr - 1)%Z st = Some st') ->
  forall out st,
    exists st', read_deps popen self recurse ports fl da mr out st = Some st'.
Proof.
  intros Hrec out. induction out as [|line rest IH]; intros st.
  - exists st. reflexivity.
  - simpl. destruct (String.eqb line ""); [now exists st|].
    destruct (Py.mem _ _); [apply IH|].
    destruct (Hrec (Py.rstrip line)
                (visit (Py.rstrip line)
                   (_add_node popen self (Py.rstrip line)
                      (if shown self (_fullname2port (Py.rstrip line))
                       then emit (Edge (_fullname2port ports)
                                       (_fullname2port (Py.rstrip line))
                                       (snd da)) (visit ports st)
                       else visit ports st)))) as [st5 E5].
    rewrite E5. apply IH.
Qed.

Lemma recurseports_bounded popen self fuel :
  forall ports fl da mr st,
    (0 <= mr)%Z -> Z.to_nat mr < fuel ->
    exists st', _recurseports popen self fuel ports fl da mr st = Some st'.
Proof.
  induction fuel as [|fuel IH]; intros ports fl da mr st Hmr Hf; [lia|].
  rewrite recurseports_S. destruct (mr =? 0)%Z eqn:E.
  - now exists st.
  - apply Z.eqb_neq in E. apply read_deps_returns.
    intros x s. apply IH; lia.
Qed.

(** X10. With a depth budget that is not negative [build_graph] returns
    once the fuel exceeds the budget, whatever the build tool answers, also
    on a collection without end. *)
Theorem build_graph_bounded_depth_returns popen self fuel st :
  (0 <= recursion self)%Z -> Z.to_nat (recursion self) < fuel ->
  exists st', build_graph popen self fuel st = Some st'.
Proof.
  intros Hmr Hf. rewrite build_graph_unfold.
  destruct (build self).
  - destruct (recurseports_bounded popen self fuel (root_port self st)
                (flavor self) build_args (recursion self)
                (append_flavor self st) Hmr Hf) as [st1 E1].
    rewrite E1. destruct (run self); [|now exists st1].
    apply recurseports_bounded; assumption.
  - destruct (run self); [|now eexists].
    apply recurseports_bounded; assumption.
Qed.

Lemma build_graph_bounded_depth_returns_witness :
  exists st', build_graph chain_popen (fst chain_init) 4 (snd chain_init)
              = Some st'.
Proof.
  apply (build_graph_bounded_depth_returns chain_popen (fst chain_init) 4
           (snd chain_init)).
  - vm_compute. discriminate.
  - vm_compute. lia.
Defined.

(** ** Depth one *)

Lemma add_node_depends_calls popen self ports st :
  filter is_depends_call (procs (_add_node popen self ports st))
  = filter is_depends_call (procs st).
Proof.
  rewrite add_node_eq. cbv zeta.
  destruct (shown self _), (abandoned self); simpl;
    rewrite ?filter_app; simpl; now rewrite ?app_nil_r.
Qed.

Lemma enter_depends_calls popen self ports fl da st :
  filter is_depends_call (procs (enter popen self ports fl da st))
  = filter is_depends_call (procs st)
    ++ [depends_argv (_flavorname2port ports) (fst da) fl].
Proof.
  unfold enter, spawn. cbn [procs]. rewrite filter_app. cbn [filter].
  rewrite depends_argv_is_call, add_node_depends_calls.
  destruct (verbose self); reflexivity.
Qed.

Lemma read_deps_depth_one_calls popen self fuel ports fl da :
  forall out st st',
    read_deps popen self (_recurseports popen self fuel) ports fl da 1
              out st = Some st' ->
    filter is_depends_call (procs st') = filter is_depends_call (procs st).
Proof.
  induction out as [|line rest IH]; intros st st' H.
  - simpl in H. now injection H as <-.
  - destruct (String.eqb line "") eqn:El.
    + apply String.eqb_eq in El. subst line. rewrite read_deps_stop in H.
      now injection H as <-.
    + apply String.eqb_neq in El. rewrite read_deps_cons in H by exact El.
      destruct (Py.mem _ _).
      * apply IH in H. now rewrite record_edge_procs in H.
      * destruct fuel as [|fuel]; [discriminate|].
        rewrite recurseports_S in H. simpl (1 - 1 =? 0)%Z in H.
        apply IH in H. rewrite H. unfold descend.
        change (procs (visit ?d ?s)) with (procs s).
        now rewrite add_node_depends_calls, record_edge_procs.
Qed.

(** X11. With a depth budget of one the only dependency list requested is
    that of the port the call is on: the calls of the build tool for a
    dependency list grow by exactly that one. *)
Theorem recurseports_depth_one popen self fuel ports fl da st st' :
  _recurseports popen self fuel ports fl da 1 st = Some st' ->
  filter is_depends_call (procs st')
  = filter is_depends_call (procs st)
    ++ [depends_argv (_flavorname2port ports) (fst da) fl]
  /\ expansions st' = expansions st + 1.
Proof.
  intros H. destruct fuel as [|fuel]; [discriminate|].
  rewrite recurseports_S in H. simpl (1 =? 0)%Z in H.
  apply read_deps_depth_one_calls in H.
  rewrite enter_depends_calls in H. split; [exact H|].
  unfold expansions. rewrite H, length_app. reflexivity.
Qed.

Lemma recurseports_depth_one_witness :
  filter is_depends_call (procs chain_depth_one)
  = filter is_depends_call (procs (snd chain_init))
    ++ [depends_argv (_flavorname2port "/usr/ports/editors/foo")
                     (fst build_args) None]
  /\ expansions chain_depth_one = expansions (snd chain_init) + 1.
Proof.
  apply (recurseports_depth_one chain_popen (fst chain_init) 2
           "/usr/ports/editors/foo" None build_args (snd chain_init)
           chain_depth_one).
  vm_compute. reflexivity.
Defined.

(** X17. [build_graph] only appends: the statements of the graph, the
    processes started, the visited list and the printed lines of the state
    it returns extend those it was given. *)
Theorem build_graph_only_appends popen self fuel st st' :
  build_graph popen self fuel st = Some st' ->
  (exists ext, body (graph st') = body (graph st) ++ ext) /\
  (exists ext, procs st' = procs st ++ ext) /\
  (exists ext, all_ports st' = all_ports st ++ ext) /\
  (exists ext, stdout st' = stdout st ++ ext).
Proof.
  intros H. pose proof (build_graph_grows _ _ _ _ _ H) as [Hb [Hp Ha]].
  repeat split; auto.
  revert H.
  apply (build_graph_invariant popen self (fun _ => True)
           (fun s => exists ext, stdout s = stdout st ++ ext)); auto.
  - intros x s [ext He]. exists (ext ++ [x]). simpl.
    now rewrite He, app_assoc.
  - intros x s _ [ext He]. exists ext. now rewrite add_node_stdout.
  - exists []. now rewrite app_nil_r.
Qed.

Lemma build_graph_only_appends_witness :
  (exists ext, body (graph chatty_final)
               = body (graph (snd chatty_init)) ++ ext) /\
  (exists ext, procs chatty_final = procs (snd chatty_init) ++ ext) /\
  (exists ext, all_ports chatty_final = all_ports (snd chatty_init) ++ ext) /\
  (exists ext, stdout chatty_final = stdout (snd chatty_init) ++ ext).
Proof.
  apply (build_graph_only_appends cyc_popen (fst chatty_init) 3
           (snd chatty_init) chatty_final).
  vm_compute. reflexivity.
Defined.

(** ** Slices of a port name *)

Lemma find_from_none (c : ascii) (s : string) (i : Z) :
  count_char c s = 0 -> Py.find_from c s i = (-1)%Z.
Proof.
  revert i. induction s as [|a r IH]; simpl; intros i H; [reflexivity|].
  destruct (Ascii.eqb a c); [discriminate|]. now apply IH.
Qed.

Lemma find_from_first (c : ascii) (a b : string) (i : Z) :
  count_char c a = 0 ->
  Py.find_from c (a ++ String c b)%string i
  = (i + Z.of_nat (String.length a))%Z.
Proof.
  revert i. induction a as [|x a IH]; simpl; intros i H.
  - rewrite Ascii.eqb_refl. lia.
  - destruct (Ascii.eqb x c); [discriminate|]. rewrite IH by exact H. lia.
Qed.

Lemma substring_suffix (a b : string) :
  String.substring (String.length a) (String.length b) (a ++ b)%string = b.
Proof.
  induction a as [|x a IH]; simpl; [apply substring_all | exact IH].
Qed.

Lemma slice_to_prefix (a b : string) :
  Py.slice_to (a ++ b)%string (Z.of_nat (String.length a)) = a.
Proof.
  unfold Py.slice_to, Py.clamp, Py.len. rewrite string_length_app.
  replace (Z.of_nat (String.length a) <? 0)%Z with false
    by (symmetry; apply Z.ltb_ge; lia).
  replace (Z.to_nat _) with (String.length a) by lia.
  apply substring_prefix.
Qed.

Lemma slice_from_suffix (a b : string) :
  Py.slice_from (a ++ b)%string (Z.of_nat (String.length a)) = b.
Proof.
  unfold Py.slice_from, Py.clamp, Py.len. rewrite string_length_app.
  replace (Z.of_nat (String.length a) <? 0)%Z with false
    by (symmetry; apply Z.ltb_ge; lia).
  replace (Z.to_nat _) with (String.length a) by lia.
  replace (String.length a + String.length b - String.length a)
    with (String.length b) by lia.
  apply substring_suffix.
Qed.

Lemma port_category_slice (cat nm : string) :
  count_char "/"%char cat = 0 ->
  Py.slice_to (cat ++ "/" ++ nm)%string (Py.find "/"%char (cat ++ "/" ++ nm)%string)
  = cat.
Proof.
  intros H. unfold Py.find.
  change (cat ++ "/" ++ nm)%string with (cat ++ String "/"%char nm)%string.
  rewrite find_from_first by exact H. simpl (0 + _)%Z.
  apply slice_to_prefix.
Qed.

Lemma port_name_slice (cat nm : string) :
  count_char "/"%char cat = 0 ->
  Py.slice_from (cat ++ "/" ++ nm)%string
                (Py.find "/"%char (cat ++ "/" ++ nm)%string + 1)
  = nm.
Proof.
  intros H. unfold Py.find.
  change (cat ++ "/" ++ nm)%string with (cat ++ String "/"%char nm)%string.
  rewrite find_from_first by exact H.
  replace (cat ++ String "/"%char nm)%string
    with ((cat ++ "/") ++ nm)%string
    by (rewrite string_app_assoc; reflexivity).
  replace (0 + Z.of_nat (String.length cat) + 1)%Z
    with (Z.of_nat (String.length (cat ++ "/")%string))
    by (rewrite string_length_app; simpl; lia).
  apply slice_from_suffix.
Qed.

(** ** The graph around the statements *)

Lemma emit_shell s st :
  name (graph (emit s st)) = name (graph st) /\
  filename (graph (emit s st)) = filename (graph st) /\
  format (graph (emit s st)) = format (graph st) /\
  graph_attr (graph (emit s st)) = graph_attr (graph st).
Proof. repeat split. Qed.

Lemma build_graph_keeps_shell popen self fuel st st' :
  build_graph popen self fuel st = Some st' ->
  name (graph st') = name (graph st) /\
  filename (graph st') = filename (graph st) /\
  format (graph st') = format (graph st) /\
  graph_attr (graph st') = graph_attr (graph st).
Proof.
  apply (build_graph_invariant popen self (fun _ => True)
           (fun s => name (graph s) = name (graph st) /\
                     filename (graph s) = filename (graph st) /\
                     format (graph s) = format (graph st) /\
                     graph_attr (graph s) = graph_attr (graph st)));
    auto.
  intros x s _ H. rewrite add_node_eq. cbv zeta.
  destruct (shown self _), (abandoned self); exact H.
Qed.

Lemma graph4port_returned
    popen makedirs_ok render_ok fuel cat nm localbase0 flavor0
    with_pkg0 verbose0 recursion0 url0 suffix0 build0 run0 abandoned0 clean
    w w' :
  count_char "/"%char cat = 0 ->
  graph4port popen makedirs_ok render_ok fuel (cat ++ "/" ++ nm)%string
             localbase0 flavor0 with_pkg0 verbose0 recursion0 url0 suffix0
             build0 run0 abandoned0 clean w = Returned w' ->
  exists g,
    w' = w ++ [(Py.path_join cat (nm ++ flavor_suffix flavor0)%string,
                g, clean)] /\
    graph_shell (nm ++ flavor_suffix flavor0)%string g.
Proof.
  intros Hc. unfold graph4port. cbv zeta.
  rewrite (port_category_slice cat nm Hc), (port_name_slice cat nm Hc).
  set (n := if Py.truthy flavor0 then _ else nm).
  assert (Hn : n = (nm ++ flavor_suffix flavor0)%string).
  { subst n. unfold flavor_suffix. destruct (Py.truthy flavor0).
    - reflexivity.
    - clear. induction nm as [|a r IH]; simpl; [reflexivity | now rewrite <- IH]. }
  rewrite Hn. clearbody n. clear n Hn.
  unfold Portgraph_init.
  destruct (build_graph _ _ _ _) as [st|] eqn:E; [|discriminate].
  destruct (makedirs_ok cat); [|discriminate].
  destruct (render_ok _ _); [|discriminate].
  intros H. injection H as <-. exists (graph st). split; [reflexivity|].
  pose proof (build_graph_keeps_shell _ _ _ _ _ E) as [H1 [H2 [H3 H4]]].
  pose proof (build_graph_grows _ _ _ _ _ E) as [[ext Hb] _].
  simpl in *. repeat split; auto. eexists. exact Hb.
Qed.

(** X12. When [graph4port] returns for a port given as category/name,
    it has added one artifact, rendered at category/name with the flavor
    appended; the graph is named after the name and the flavor, its format is
    svg, its direction left to right, and its first statement the default
    node attributes. *)
Theorem graph4port_artifact
    popen makedirs_ok render_ok fuel cat nm localbase0 flavor0
    with_pkg0 verbose0 recursion0 url0 suffix0 build0 run0 abandoned0 clean
    w w' :
  count_char "/"%char cat = 0 ->
  graph4port popen makedirs_ok render_ok fuel (cat ++ "/" ++ nm)%string
             localbase0 flavor0 with_pkg0 verbose0 recursion0 url0 suffix0
             build0 run0 abandoned0 clean w = Returned w' ->
  exists g,
    w' = w ++ [(Py.path_join cat (nm ++ flavor_suffix flavor0)%string,
                g, clean)] /\
    graph_shell (nm ++ flavor_suffix flavor0)%string g.
Proof. apply graph4port_returned. Qed.

Lemma graph4port_artifact_witness :
  exists g,
    tree_b_artifacts
    = [] ++ [(Py.path_join "devel" ("b" ++ flavor_suffix None)%string,
              g, true)] /\
    graph_shell ("b" ++ flavor_suffix None)%string g.
Proof.
  apply (graph4port_artifact no_deps (fun _ => true) tree_render_ok 2
           "devel" "b" "/usr/ports" None false false (-1) None None
           true false false true [] tree_b_artifacts).
  - reflexivity.
  - vm_compute. reflexivity.
Defined.

Lemma slice_to_minus_one (s : string) :
  Py.slice_to s (-1) = String.substring 0 (String.length s - 1) s.
Proof.
  unfold Py.slice_to, Py.clamp, Py.len.
  change (-1 <? 0)%Z with true. cbv iota. f_equal. lia.
Qed.

Lemma slice_from_zero (s : string) : Py.slice_from s 0 = s.
Proof.
  unfold Py.slice_from, Py.clamp, Py.len.
  change (0 <? 0)%Z with false. cbv iota.
  replace (Z.to_nat _) with 0 by lia. rewrite Nat.sub_0_r.
  apply substring_all.
Qed.

(** X13. For a port given without a separator [graph4port] takes the
    port without its last character as the category directory. *)
Theorem graph4port_without_separator
    popen makedirs_ok render_ok fuel port0 localbase0 flavor0
    with_pkg0 verbose0 recursion0 url0 suffix0 build0 run0 abandoned0 clean
    w w' :
  count_char "/"%char port0 = 0 ->
  graph4port popen makedirs_ok render_ok fuel port0
             localbase0 flavor0 with_pkg0 verbose0 recursion0 url0 suffix0
             build0 run0 abandoned0 clean w = Returned w' ->
  exists g,
    w' = w ++ [(Py.path_join
                  (String.substring 0 (String.length port0 - 1) port0)
                  (port0 ++ flavor_suffix flavor0)%string,
                g, clean)].
Proof.
  intros Hc. unfold graph4port. cbv zeta. unfold Py.find.
  rewrite (find_from_none _ _ 0 Hc). simpl (-1 + 1)%Z.
  rewrite slice_to_minus_one, slice_from_zero.
  set (n := if Py.truthy flavor0 then _ else port0).
  assert (Hn : n = (port0 ++ flavor_suffix flavor0)%string).
  { subst n. unfold flavor_suffix. destruct (Py.truthy flavor0).
    - reflexivity.
    - clear. induction port0 as [|a r IH]; simpl;
        [reflexivity | now rewrite <- IH]. }
  rewrite Hn. clearbody n. clear n Hn.
  unfold Portgraph_init.
  destruct (build_graph _ _ _ _) as [st|]; [|discriminate].
  destruct (makedirs_ok _); [|discriminate].
  destruct (render_ok _ _); [|discriminate].
  intros H. injection H as <-. now exists (graph st).
Qed.

Lemma graph4port_without_separator_witness :
  exists g,
    tree_vim_artifacts
    = [] ++ [(Py.path_join
                (String.substring 0 (String.length "vim" - 1) "vim")
                ("vim" ++ flavor_suffix None)%string,
              g, true)].
Proof.
  apply (graph4port_without_separator no_deps (fun _ => true) tree_render_ok 2
           "vim" "/usr/ports" None false false (-1) None None
           true false false true [] tree_vim_artifacts).
  - reflexivity.
  - vm_compute. reflexivity.
Defined.

(** ** Joining names *)

Lemma endswith_nosep (c : ascii) (s : string) :
  count_char c s = 0 -> Py.endswith c s = false.
Proof.
  induction s as [|a r IH]; simpl; [reflexivity|].
  destruct (Ascii.eqb a c); [discriminate|]. intros H.
  destruct r; [reflexivity | now apply IH].
Qed.

Lemma startswith_nosep (c : ascii) (s : string) :
  count_char c s = 0 -> Py.startswith c s = false.
Proof.
  destruct s as [|a r]; simpl; [reflexivity|].
  destruct (Ascii.eqb a c); [discriminate | reflexivity].
Qed.

Lemma startswith_flavored (p : string) (fl : option string) :
  count_char "/"%char p = 0 ->
  Py.startswith "/"%char (p ++ flavor_suffix fl)%string = false.
Proof.
  intros H. destruct p as [|a r]; simpl.
  - unfold flavor_suffix. destruct (Py.truthy fl); reflexivity.
  - simpl in H. destruct (Ascii.eqb a "/"); [discriminate | reflexivity].
Qed.

Lemma path_join_plain (a b : string) :
  a <> "" -> count_char "/"%char a = 0 -> Py.startswith "/"%char b = false ->
  Py.path_join a b = (a ++ "/" ++ b)%string.
Proof.
  intros Ha Hc Hb. unfold Py.path_join, Py.sep. rewrite Hb.
  rewrite (endswith_nosep _ _ Hc).
  destruct (String.eqb a "") eqn:E; [apply String.eqb_eq in E; congruence|].
  reflexivity.
Qed.

(** ** The artifacts of a batch *)

Section BatchArtifacts.

Variable popen : list string -> list string.
Variable makedirs_ok : string -> bool.
Variable render_ok : string -> Digraph -> bool.
Variable scandir : string -> option (list (string * bool)).
Variables (fuel : nat) (localbase0 : string) (flavor0 : option string)
          (with_pkg0 verbose0 : bool) (recursion0 : Z)
          (url0 suffix0 : option string) (build0 run0 abandoned0 clean : bool).

Hypothesis names_plain :
  forall path es n d,
    scandir path = Some es -> In (n, d) es ->
    n <> "" /\ count_char "/"%char n = 0.

Lemma scan_entries path es e :
  scan scandir path = Some es -> In e es ->
  In (entry_name e, is_dir e) (match scandir path with
                               | Some l => l
                               | None => []
                               end)
  /\ entry_name e <> "" /\ count_char "/"%char (entry_name e) = 0.
Proof.
  unfold scan. destruct (scandir path) as [l|] eqn:E; [|discriminate].
  intros H. injection H as <-. intros Hin. apply in_map_iff in Hin.
  destruct Hin as [[n d] [<- Hin]]. simpl. split; [exact Hin|].
  eapply names_plain; eassumption.
Qed.

Lemma for_ports_artifacts cat :
  entry_name cat <> "" -> count_char "/"%char (entry_name cat) = 0 ->
  forall ports w w',
    (forall p, In p ports -> count_char "/"%char (entry_name p) = 0) ->
    for_ports popen makedirs_ok render_ok fuel localbase0 flavor0 with_pkg0
              verbose0 recursion0 url0 suffix0 build0 run0 abandoned0 clean
              cat ports w = Returned w'
    \/ for_ports popen makedirs_ok render_ok fuel localbase0 flavor0 with_pkg0
                 verbose0 recursion0 url0 suffix0 build0 run0 abandoned0 clean
                 cat ports w = Raised w' ->
    exists ext,
      w' = w ++ ext /\
      forall path g c,
        In (path, g, c) ext ->
        c = clean /\
        exists p,
          In p ports /\
          path = (entry_name cat ++ "/" ++ entry_name p
                  ++ flavor_suffix flavor0)%string /\
          graph_shell (entry_name p ++ flavor_suffix flavor0)%string g.
Proof.
  intros Hne Hc ports. induction ports as [|p rest IH]; intros w w' Hp H.
  - simpl in H. exists []. rewrite app_nil_r.
    split; [destruct H as [H|H]; congruence | intros ? ? ? []].
  - simpl in H.
    assert (Hpc : count_char "/"%char (entry_name p) = 0)
      by (apply Hp; now left).
    rewrite (path_join_plain _ _ Hne Hc (startswith_nosep _ _ Hpc)) in H.
    destruct (graph4port _ _ _ _ _ _ _ _ _ _ _ _ _ _ _ _ _) as [w1|w1|] eqn:E.
    + destruct (graph4port_returned _ _ _ _ _ _ _ _ _ _ _ _ _ _ _ _ _ _ _
                  Hc E) as [g [-> Hg]].
      destruct (IH _ _ (fun q Hq => Hp q (or_intror Hq)) H) as [ext [-> Hext]].
      exists ((Py.path_join (entry_name cat)
                 (entry_name p ++ flavor_suffix flavor0)%string, g, clean)
              :: ext).
      split; [now rewrite <- app_assoc|].
      intros path g' c [Heq|Hin].
      * injection Heq as <- <- <-. split; [reflexivity|].
        exists p. split; [now left|]. split; [|exact Hg].
        apply path_join_plain; auto. now apply startswith_flavored.
      * destruct (Hext _ _ _ Hin) as [Hcl [q [Hq Hrest]]].
        split; [exact Hcl|]. exists q. split; [now right | exact Hrest].
    + apply graph4port_raised in E. subst w1.
      exists []. rewrite app_nil_r.
      split; [destruct H as [H|H]; congruence | intros ? ? ? []].
    + destruct H as [H|H]; discriminate.
Qed.

(** X14. Where the names of directory entries are not empty and hold no
    separator, the artifacts [graph4allports] has added, when it returns or
    raises, come after those already there, each for a directory of a
    category directory of [localbase] that is not excluded, at
    category/name with the flavor appended. *)
Theorem graph4allports_artifacts w w' :
  graph4allports popen makedirs_ok render_ok scandir fuel localbase0 flavor0
                 with_pkg0 verbose0 recursion0 url0 suffix0 build0 run0
                 abandoned0 clean w = Returned w'
  \/ graph4allports popen makedirs_ok render_ok scandir fuel localbase0
                    flavor0 with_pkg0 verbose0 recursion0 url0 suffix0 build0
                    run0 abandoned0 clean w = Raised w' ->
  exists ext,
    w' = w ++ ext /\
    forall path g c,
      In (path, g, c) ext ->
      c = clean /\
      exists cn pn es ps,
        scandir localbase0 = Some es /\ In (cn, true) es /\
        Py.mem cn excluded = false /\
        scandir (Py.path_join localbase0 (Py.path_join localbase0 cn))
        = Some ps /\
        In (pn, true) ps /\
        path = (cn ++ "/" ++ pn ++ flavor_suffix flavor0)%string /\
        graph_shell (pn ++ flavor_suffix flavor0)%string g.
Proof.
  unfold graph4allports.
  destruct (scan scandir localbase0) as [es0|] eqn:Es0.
  2:{ intros H. exists []. rewrite app_nil_r.
      split; [destruct H as [H|H]; congruence | intros ? ? ? []]. }
  assert (Hcats : forall cat,
             In cat (filter (fun rec => is_dir rec
                                        && negb (Py.mem (entry_name rec)
                                                        excluded)) es0) ->
             exists es, scandir localbase0 = Some es /\
                        In (entry_name cat, true) es /\
                        Py.mem (entry_name cat) excluded = false /\
                        entry_path cat
                        = Py.path_join localbase0 (entry_name cat) /\
                        entry_name cat <> "" /\
                        count_char "/"%char (entry_name cat) = 0).
  { intros cat Hin. apply filter_In in Hin. destruct Hin as [Hin Hf].
    apply andb_true_iff in Hf. destruct Hf as [Hd Hx].
    apply negb_true_iff in Hx.
    pose proof (scan_entries _ _ _ Es0 Hin) as [Hl [Hne Hc]].
    unfold scan in Es0.
    destruct (scandir localbase0) as [l|] eqn:El; [|discriminate].
    injection Es0 as <-. apply in_map_iff in Hin.
    destruct Hin as [[n d] [<- Hin]]. simpl in *. subst d.
    exists l. repeat split; auto. }
  revert Hcats. generalize (filter (fun rec => is_dir rec
                                        && negb (Py.mem (entry_name rec)
                                                        excluded)) es0).
  intros cats. revert w.
  induction cats as [|cat rest IH]; intros w Hcats H.
  - simpl in H. exists []. rewrite app_nil_r.
    split; [destruct H as [H|H]; congruence | intros ? ? ? []].
  - simpl in H.
    destruct (Hcats cat (or_introl eq_refl))
      as [es [Hes [Hcn [Hx [Hpath [Hne Hc]]]]]].
    destruct (scan scandir (Py.path_join localbase0 (entry_path cat)))
      as [ps|] eqn:Eps.
    2:{ exists []. rewrite app_nil_r.
        split; [destruct H as [H|H]; congruence | intros ? ? ? []]. }
    assert (Hps : forall p, In p (filter is_dir ps) ->
                    count_char "/"%char (entry_name p) = 0
                    /\ exists l,
                         scandir (Py.path_join localbase0
                                    (Py.path_join localbase0 (entry_name cat)))
                         = Some l /\ In (entry_name p, true) l).
    { intros p Hin. apply filter_In in Hin. destruct Hin as [Hin Hd].
      pose proof (scan_entries _ _ _ Eps Hin) as [Hl [_ Hpc]].
      split; [exact Hpc|]. rewrite Hpath in Hl. unfold scan in Eps.
      rewrite Hpath in Eps.
      destruct (scandir (Py.path_join localbase0
                           (Py.path_join localbase0 (entry_name cat))))
        as [l|]; [|discriminate].
      exists l. split; [reflexivity|]. now rewrite <- Hd. }
    destruct (for_ports _ _ _ _ _ _ _ _ _ _ _ _ _ _ _ _ (filter is_dir ps) w)
      as [w1|w1|] eqn:E.
    + destruct (for_ports_artifacts cat Hne Hc _ _ _
                  (fun p Hp => proj1 (Hps p Hp)) (or_introl E))
        as [e1 [-> He1]].
      destruct (IH _ (fun c Hc' => Hcats c (or_intror Hc')) H)
        as [e2 [-> He2]].
      exists (e1 ++ e2). split; [now rewrite app_assoc|].
      intros path g c Hin. apply in_app_or in Hin.
      destruct Hin as [Hin|Hin]; [|exact (He2 _ _ _ Hin)].
      destruct (He1 _ _ _ Hin) as [Hcl [p [Hp [Hpa Hg]]]].
      split; [exact Hcl|].
      destruct (Hps p Hp) as [_ [l [Hl Hpl]]].
      exists (entry_name cat), (entry_name p), es, l. repeat split; auto;
        apply Hg.
    + assert (H' : w' = w1) by (destruct H as [H|H]; congruence). subst w1.
      destruct (for_ports_artifacts cat Hne Hc _ _ _
                  (fun p Hp => proj1 (Hps p Hp)) (or_intror E))
        as [e1 [-> He1]].
      exists e1. split; [reflexivity|].
      intros path g c Hin.
      destruct (He1 _ _ _ Hin) as [Hcl [p [Hp [Hpa Hg]]]].
      split; [exact Hcl|].
      destruct (Hps p Hp) as [_ [l [Hl Hpl]]].
      exists (entry_name cat), (entry_name p), es, l. repeat split; auto;
        apply Hg.
    + destruct H as [H|H]; discriminate.
Qed.

End BatchArtifacts.

Lemma tree_names_plain :
  forall path es n d,
    tree_scandir path = Some es -> In (n, d) es ->
    n <> "" /\ count_char "/"%char n = 0.
Proof.
  intros path es n d H Hin. unfold tree_scandir in H.
  destruct (String.eqb path "/usr/ports").
  - injection H as <-. simpl in Hin.
    destruct Hin as [E|[E|[E|[]]]]; injection E as <- _;
      split; [discriminate | reflexivity | discriminate | reflexivity
             | discriminate | reflexivity].
  - destruct (String.eqb path "/usr/ports/devel"); [|discriminate].
    injection H as <-. simpl in Hin.
    destruct Hin as [E|[E|[]]]; injection E as <- _;
      split; [discriminate | reflexivity | discriminate | reflexivity].
Qed.

Lemma graph4allports_artifacts_witness :
  exists ext,
    tree_batch_artifacts = [] ++ ext /\
    forall path g c,
      In (path, g, c) ext ->
      c = true /\
      exists cn pn es ps,
        tree_scandir "/usr/ports" = Some es /\ In (cn, true) es /\
        Py.mem cn excluded = false /\
        tree_scandir (Py.path_join "/usr/ports"
                        (Py.path_join "/usr/ports" cn)) = Some ps /\
        In (pn, true) ps /\
        path = (cn ++ "/" ++ pn ++ flavor_suffix None)%string /\
        graph_shell (pn ++ flavor_suffix None)%string g.
Proof.
  apply (graph4allports_artifacts no_deps (fun _ => true) (fun _ _ => true)
           tree_scandir 2 "/usr/ports" None false false (-1) None None
           true false false true tree_names_plain [] tree_batch_artifacts).
  left. vm_compute. reflexivity.
Defined.

(** ** The directory read for a category *)

(** X15. The directory [graph4allports] reads for a category is the
    category's own path when [localbase] is absolute; when [localbase] is
    relative it is [localbase] joined to that path, [localbase] twice. *)
Theorem category_scan_path scandir localbase0 es e :
  scan scandir localbase0 = Some es -> In e es ->
  Py.startswith "/"%char (entry_name e) = false ->
  (Py.startswith "/"%char localbase0 = true ->
   Py.path_join localbase0 (entry_path e) = entry_path e)
  /\ (Py.startswith "/"%char localbase0 = false ->
      localbase0 <> "" -> Py.endswith "/"%char localbase0 = false ->
      Py.path_join localbase0 (entry_path e)
      = (localbase0 ++ "/" ++ localbase0 ++ "/" ++ entry_name e)%string).
Proof.
  unfold scan. destruct (scandir localbase0) as [l|]; [|discriminate].
  intros H Hin Hn. injection H as <-. apply in_map_iff in Hin.
  destruct Hin as [[n d] [<- _]]. simpl in *.
  assert (Hj : Py.path_join localbase0 n
               = if String.eqb localbase0 "" || Py.endswith Py.sep localbase0
                 then (localbase0 ++ n)%string
                 else (localbase0 ++ String Py.sep "" ++ n)%string)
    by (unfold Py.path_join, Py.sep in *; now rewrite Hn).
  split.
  - intros Ha.
    assert (Hs : Py.startswith Py.sep (Py.path_join localbase0 n) = true).
    { rewrite Hj. destruct localbase0 as [|a r]; [discriminate|].
      destruct (_ || _); exact Ha. }
    unfold Py.path_join at 1. now rewrite Hs.
  - intros Hr Hne He.
    assert (E : String.eqb localbase0 "" = false)
      by (apply String.eqb_neq; exact Hne).
    unfold Py.sep in *. rewrite E, He in Hj. simpl in Hj. rewrite Hj.
    unfold Py.path_join, Py.sep. rewrite E, He. simpl.
    destruct localbase0 as [|a r]; [congruence|]. simpl in *. now rewrite Hr.
Qed.

Lemma category_scan_path_witness :
  (Py.startswith "/"%char "/usr/ports" = true ->
   Py.path_join "/usr/ports"
                (entry_path (mkDirEntry "devel" "/usr/ports/devel" true))
   = entry_path (mkDirEntry "devel" "/usr/ports/devel" true))
  /\ (Py.startswith "/"%char "/usr/ports" = false ->
      "/usr/ports" <> "" -> Py.endswith "/"%char "/usr/ports" = false ->
      Py.path_join "/usr/ports"
                   (entry_path (mkDirEntry "devel" "/usr/ports/devel" true))
      = ("/usr/ports" ++ "/" ++ "/usr/ports" ++ "/"
         ++ entry_name (mkDirEntry "devel" "/usr/ports/devel" true))%string).
Proof.
  apply (category_scan_path tree_scandir "/usr/ports"
           [mkDirEntry "devel" "/usr/ports/devel" true;
            mkDirEntry "Mk" "/usr/ports/Mk" true;
            mkDirEntry "README" "/usr/ports/README" false]
           (mkDirEntry "devel" "/usr/ports/devel" true)).
  - reflexivity.
  - now left.
  - reflexivity.
Defined.

(** ** main *)

Lemma string_app_empty (s : string) : (s ++ "")%string = s.
Proof. induction s as [|a r IH]; simpl; [reflexivity | now rewrite IH]. Qed.

(** X16. In single-port mode with a depth budget other than zero,
    whichever of the build and run flags are given, the artifact [main]
    leaves holds the node of the root, unless the root is the hidden package
    manager. *)
Theorem main_draws_the_root
    popen makedirs_ok render_ok scandir fuel args w w' :
  a_allports args = false ->
  a_recursion args <> 0%Z ->
  _fullname2port
    (Py.path_join (Py.rstrip_char Py.sep (a_localbase args))
                  (a_port args ++ flavor_suffix (a_flavor args))%string)
  <> "ports-mgmt/pkg" \/ a_with_pkg args = true ->
  main popen makedirs_ok render_ok scandir fuel args w = Returned w' ->
  exists path g u c sty,
    w' = w ++ [(path, g, a_clean args)] /\
    In (Node (_fullname2port
                (Py.path_join (Py.rstrip_char Py.sep (a_localbase args))
                              (a_port args
                               ++ flavor_suffix (a_flavor args))%string))
             u c sty)
       (body g).
Proof.
  intros Hall Hmr Hshown. unfold main. rewrite Hall. cbv zeta.
  unfold graph4port. cbv zeta.
  destruct (Portgraph_init _ _ _ _ _ _ _ _ _ _ _ _) as [pg st0] eqn:Ei.
  unfold Portgraph_init in Ei. injection Ei as Hpg Hst.
  destruct (build_graph popen pg fuel st0) as [st|] eqn:E; [|discriminate].
  destruct (makedirs_ok _); [|discriminate].
  destruct (render_ok _ _); [|discriminate].
  intros H. injection H as <-.
  assert (Hroot : root_port pg st0
                  = Py.path_join (Py.rstrip_char Py.sep (a_localbase args))
                      (a_port args ++ flavor_suffix (a_flavor args))%string).
  { subst pg st0. unfold root_port, flavor_suffix. simpl.
    destruct (Py.truthy (a_flavor args)); [reflexivity|].
    now rewrite string_app_empty. }
  eexists. exists (graph st). do 3 eexists. split; [reflexivity|].
  rewrite <- Hroot.
  apply (build_graph_root popen pg fuel st0 st).
  - subst pg. simpl. destruct (a_build args), (a_run args); reflexivity.
  - subst pg. exact Hmr.
  - rewrite Hroot. subst pg. unfold shown. simpl.
    destruct Hshown as [Hn|Hw].
    + apply String.eqb_neq in Hn. now rewrite Hn.
    + rewrite Hw. destruct (String.eqb _ _); reflexivity.
  - exact E.
Qed.

Lemma main_draws_the_root_witness :
  exists path g u c sty,
    default_artifacts = [] ++ [(path, g, a_clean parser_defaults)] /\
    In (Node (_fullname2port
                (Py.path_join (Py.rstrip_char Py.sep (a_localbase parser_defaults))
                              (a_port parser_defaults
                               ++ flavor_suffix
                                    (a_flavor parser_defaults))%string))
             u c sty)
       (body g).
Proof.
  apply (main_draws_the_root no_deps (fun _ => true) (fun _ _ => true)
           tree_scandir 2 parser_defaults [] default_artifacts).
  - reflexivity.
  - vm_compute. discriminate.
  - left. vm_compute. discriminate.
  - vm_compute. reflexivity.
Defined.
